(** * Traceloop trace store: a shallow embedding of [server/storage]

    The development follows the BadgerDB-backed store of the repository
    (type [BadgerStore] with [GetTraces], [GetTrace], [StoreTrace] and
    [GetStats]).  Go values of dynamic type [interface{}] are an inductive
    type, Go [string] and [[]byte] are byte strings, Go [int] and [int64]
    are integers with their 64-bit wrap-around written out, and the
    database is an ordered list of key/value entries threaded through the
    operations.  The two libraries the store calls, [encoding/json] and
    [badger], are an interface ([Libs]); a concrete model of both is given
    further down and used wherever a statement is evaluated on data. *)

From Stdlib Require Import String Ascii List ZArith Lia Bool.
From Stdlib Require Import Decimal DecimalString DecimalZ DecimalFacts DecimalPos.
From Stdlib Require Import Permutation Sorted OrderedTypeEx.
Import ListNotations.

Local Open Scope string_scope.
Local Open Scope list_scope.
Local Open Scope Z_scope.

(** ** Go data *)

(** [string] and [[]byte]: sequences of 8-bit bytes. *)
Definition bytes := string.

(** [len] of a string or byte slice, as a Go [int]. *)
Definition len_bytes (b : bytes) : Z := Z.of_nat (String.length b).

(** A [float64].  Only the values the codec model prints and reads back
    exactly are told apart: the finite floats with an integral value, the
    NaN and the two infinities. *)
Inductive float64 : Type :=
| F64 (z : Z)
| F64NaN
| F64Inf (negative : bool).

Unset Elimination Schemes.

(** The dynamic values a [map[string]interface{}] of this program holds.
    [Slice] is [[]interface{}], [MapSlice] is [[]map[string]interface{}]
    (what the repository's own test and mock data put under ["spans"]),
    [Map] is [map[string]interface{}].  A map is an association list;
    lookup takes the first binding of a key. *)
Inductive value : Type :=
| Nil
| Bool (b : bool)
| Int (n : Z)
| Float64 (f : float64)
| Str (s : string)
| Slice (l : list value)
| MapSlice (l : list (list (string * value)))
| Map (m : list (string * value)).

Set Elimination Schemes.

(** [map[string]interface{}], the type of a trace in the store's API. *)
Definition trace := list (string * value).

(** [m[key]] with the comma-ok form. *)
Fixpoint map_lookup (key : string) (m : trace) : option value :=
  match m with
  | [] => None
  | (k, v) :: rest => if String.eqb key k then Some v else map_lookup key rest
  end.

(** Go's [int] (on a 64-bit platform) and [int64] arithmetic is 64-bit
    two's complement. *)
Definition wrap_int64 (z : Z) : Z := (z + 2 ^ 63) mod 2 ^ 64 - 2 ^ 63.

(** ** Errors and results *)

(** Error values.  [Errorf msg] is [fmt.Errorf(msg)], [Errorf_w msg e] is
    [fmt.Errorf(msg + ": %w", e)], [LibErr pkg msg] is an error value
    created inside a library. *)
Inductive error : Type :=
| LibErr (pkg msg : string)
| Errorf (msg : string)
| Errorf_w (msg : string) (wrapped : error).

Inductive result (A : Type) : Type :=
| Ok (a : A)
| Err (e : error).
Arguments Ok {A} a.
Arguments Err {A} e.

(** [err.Error()]. *)
Fixpoint Error (e : error) : string :=
  match e with
  | LibErr _ msg => msg
  | Errorf msg => msg
  | Errorf_w msg w => (msg ++ ": " ++ Error w)%string
  end.

(** ** The libraries the store is written against *)

(** [json_Marshal] and [json_Unmarshal] are [encoding/json] at the type
    [map[string]interface{}]; [txn_modify_check] is the validation badger
    performs on an entry before accepting it in a transaction ([None]
    when the entry is accepted). *)
Class Libs : Type := {
  json_Marshal : trace -> result bytes;
  json_Unmarshal : bytes -> result trace;
  txn_modify_check : bytes -> bytes -> option error
}.

(** ** The key-value engine *)

(** The content of the database: entries in the engine's key order. *)
Definition DB := list (bytes * bytes).

Definition kv_get (key : bytes) (db : DB) : option bytes :=
  match find (fun e => String.eqb (fst e) key) db with
  | Some e => Some (snd e)
  | None => None
  end.

Definition kv_delete (key : bytes) (db : DB) : DB :=
  filter (fun e => negb (String.eqb (fst e) key)) db.

Fixpoint kv_insert (key val : bytes) (db : DB) : DB :=
  match db with
  | [] => [(key, val)]
  | (k, v) :: rest =>
      if String.ltb k key then (k, v) :: kv_insert key val rest
      else (key, val) :: (k, v) :: rest
  end.

(** A write replaces whatever the key held. *)
Definition kv_set (key val : bytes) (db : DB) : DB :=
  kv_insert key val (kv_delete key db).

(** Number of entries stored under a key. *)
Definition kv_count (key : bytes) (db : DB) : nat :=
  List.length (filter (fun e => String.eqb (fst e) key) db).

(** The entries are in strictly increasing key order. *)
Definition key_lt (a b : bytes * bytes) : Prop := String.ltb (fst a) (fst b) = true.
Definition kv_sorted (db : DB) : Prop := StronglySorted key_lt db.

(** [db.View(fn)]: a read-only transaction sees the content as it is. *)
Definition db_View {A : Type} (db : DB) (fn : DB -> result A) : result A :=
  fn db.

(** [db.Update(fn)]: the transaction is committed when [fn] returns no
    error and discarded otherwise. *)
Definition db_Update (db : DB) (fn : DB -> DB * option error)
  : DB * option error :=
  match fn db with
  | (txn, None) => (txn, None)
  | (_, Some e) => (db, Some e)
  end.

(** [txn.NewIterator(opts)] with [opts.Prefix = prefix], from [Rewind]
    on: the entries whose key has the prefix, in key order. *)
Definition txn_NewIterator (prefix : bytes) (txn : DB) : list (bytes * bytes) :=
  filter (fun e => String.prefix prefix (fst e)) txn.

(** [NewBadgerStore] on a fresh directory. *)
Definition NewBadgerStore : DB := [].

(** ** Formatting the storage size *)

(** Decimal digits of a non-negative integer. *)
Definition decimal (z : Z) : string := NilEmpty.string_of_int (Z.to_int z).

(** The value of [float64(n)] for an [int64] [n]: the nearest number with
    a 53-bit significand, ties to even.  The result is again an integer. *)
Definition float64_of_int64 (n : Z) : Z :=
  let m := Z.abs n in
  let shift := Z.log2 m + 1 - 53 in
  if shift <=? 0 then n
  else
    let q := Z.shiftr m shift in
    let r := m - Z.shiftl q shift in
    let half := Z.shiftl 1 (shift - 1) in
    let q' := if (half <? r) || ((r =? half) && Z.odd q) then q + 1 else q in
    Z.sgn n * Z.shiftl q' shift.

(** Nearest integer to [num / den], ties to even ([0 <= num], [0 < den]). *)
Definition round_half_even (num den : Z) : Z :=
  let q := num / den in
  let r := num mod den in
  if (den <? 2 * r) || ((2 * r =? den) && Z.odd q) then q + 1 else q.

(** [fmt.Sprintf("%.2f MB", float64(storageSize) / (1024 * 1024))]: the
    division by a power of two is exact, and the verb [%.2f] prints the
    exact quotient rounded to two decimals, ties to even. *)
Definition format_storage_size (storageSize : Z) : string :=
  let v := float64_of_int64 storageSize in
  let cents := round_half_even (Z.abs v * 100) (1024 * 1024) in
  let sign := if v <? 0 then "-" else "" in
  let whole := decimal (cents / 100) in
  let tenths := decimal (cents mod 100 / 10) in
  let hundredths := decimal (cents mod 10) in
  (sign ++ whole ++ "." ++ tenths ++ hundredths ++ " MB")%string.

Section Storage.
Context {L : Libs}.

(** [txn.Get(key)]: [None] is [badger.ErrKeyNotFound]. *)
Definition txn_Get (key : bytes) (txn : DB) : option bytes := kv_get key txn.

(** [txn.Set(key, val)]. *)
Definition txn_Set (key val : bytes) (txn : DB) : DB * option error :=
  match txn_modify_check key val with
  | Some e => (txn, Some e)
  | None => (kv_set key val txn, None)
  end.

(** ** GetTraces *)

(** The loop [for it.Rewind(); it.Valid() && count < limit; it.Next()]
    over the remaining items of the iterator. *)
Fixpoint GetTraces_loop (items : list (bytes * bytes)) (count limit : Z)
    (traces : list trace) : result (list trace) :=
  match items with
  | [] => Ok traces
  | (key, val) :: rest =>
      if count <? limit then
        if String.eqb (substring 0 6 key) "trace:" then
          match json_Unmarshal val with
          | Err e => Err (Errorf_w "failed to unmarshal trace" e)
          | Ok trace =>
              GetTraces_loop rest (count + 1) limit (traces ++ [trace])
          end
        else GetTraces_loop rest count limit traces
      else Ok traces
  end.

Definition GetTraces (s : DB) (limit : Z) : result (list trace) :=
  match db_View s (fun txn =>
          GetTraces_loop (txn_NewIterator "trace:" txn) 0 limit []) with
  | Err e => Err (Errorf_w "failed to get traces" e)
  | Ok traces => Ok traces
  end.

(** ** GetTrace *)

Definition GetTrace (s : DB) (id : string) : result trace :=
  db_View s (fun txn =>
    let key := ("trace:" ++ id)%string in
    match txn_Get key txn with
    | None => Err (Errorf "trace not found")
    | Some val => json_Unmarshal val
    end).

(** ** StoreTrace *)

Definition StoreTrace (s : DB) (trace : trace) : DB * option error :=
  match map_lookup "trace_id" trace with
  | Some (Str traceID) =>
      match json_Marshal trace with
      | Err e => (s, Some (Errorf_w "failed to marshal trace" e))
      | Ok data =>
          let key := ("trace:" ++ traceID)%string in
          db_Update s (fun txn => txn_Set key data txn)
      end
  | _ => (s, Some (Errorf "trace_id is required"))
  end.

(** ** GetStats *)

(** The counters [totalTraces], [totalSpans] and [storageSize]. *)
Record counters : Type := {
  totalTraces : Z;
  totalSpans : Z;
  storageSize : Z
}.

Fixpoint GetStats_loop (items : list (bytes * bytes)) (c : counters)
  : result counters :=
  match items with
  | [] => Ok c
  | (key, val) :: rest =>
      if String.eqb (substring 0 6 key) "trace:" then
        let totalTraces' := wrap_int64 (totalTraces c + 1) in
        match json_Unmarshal val with
        | Err e => Err e
        | Ok trace =>
            let totalSpans' :=
              match map_lookup "spans" trace with
              | Some (Slice spans) =>
                  wrap_int64 (totalSpans c + Z.of_nat (List.length spans))
              | _ => totalSpans c
              end in
            let storageSize' := wrap_int64 (storageSize c + len_bytes val) in
            GetStats_loop rest
              {| totalTraces := totalTraces';
                 totalSpans := totalSpans';
                 storageSize := storageSize' |}
        end
      else GetStats_loop rest c
  end.

Definition GetStats (s : DB) : result trace :=
  match db_View s (fun txn =>
          GetStats_loop (txn_NewIterator "trace:" txn)
            {| totalTraces := 0; totalSpans := 0; storageSize := 0 |}) with
  | Err e => Err (Errorf_w "failed to get stats" e)
  | Ok c =>
      Ok [ ("storage_size", Str (format_storage_size (storageSize c)));
           ("total_spans", Int (totalSpans c));
           ("total_traces", Int (totalTraces c)) ]
  end.

End Storage.

(** ** A model of [encoding/json]

    [Marshal] and [Unmarshal] at the type [map[string]interface{}], through
    a document tree.  The model answers [Ok] only where it reproduces the
    library exactly: JSON text over ASCII strings and integral numbers of
    magnitude below [2^53] (which [float64] holds and prints exactly).
    Anything else the library would accept is reported as [Unmodelled], an
    error of the model's own, never as a library error and never as a
    value.  The wording of the library's messages is not reproduced, and a
    [nil] map is not told apart from an empty one. *)
Module Json.

Unset Elimination Schemes.
Inductive json : Type :=
| JNull
| JBool (b : bool)
| JNumber (z : Z)
| JString (s : string)
| JArray (l : list json)
| JObject (m : list (string * json)).
Set Elimination Schemes.

Definition SyntaxError : error := LibErr "encoding/json" "invalid JSON input".
Definition MaxDepthError : error := LibErr "encoding/json" "exceeded max depth".
Definition UnmarshalTypeError : error :=
  LibErr "encoding/json"
    "json: cannot unmarshal into Go value of type map[string]interface {}".
Definition UnsupportedValueError : error :=
  LibErr "encoding/json" "json: unsupported value".
Definition Unmodelled : error := LibErr "model" "outside the modelled fragment".

(** The scanner's nesting limit, [maxNestingDepth]. *)
Definition maxNestingDepth : nat := Z.to_nat 10000.

Definition dquote : ascii := ascii_of_nat 34.

Definition ascii_byte (c : ascii) : bool := (nat_of_ascii c <? 128)%nat.

Fixpoint ascii_only (s : string) : bool :=
  match s with
  | EmptyString => true
  | String c r => ascii_byte c && ascii_only r
  end.

(** *** Maps as key-sorted association lists *)

(** Writing a key, replacing its binding. *)
Fixpoint assoc_set {A : Type} (k : string) (v : A) (m : list (string * A))
  : list (string * A) :=
  match m with
  | [] => [(k, v)]
  | (k', v') :: rest =>
      match String.compare k k' with
      | Lt => (k, v) :: (k', v') :: rest
      | Eq => (k, v) :: rest
      | Gt => (k', v') :: assoc_set k v rest
      end
  end.

(** Writing a key unless it is bound. *)
Fixpoint assoc_add {A : Type} (k : string) (v : A) (m : list (string * A))
  : list (string * A) :=
  match m with
  | [] => [(k, v)]
  | (k', v') :: rest =>
      match String.compare k k' with
      | Lt => (k, v) :: (k', v') :: rest
      | Eq => (k', v') :: rest
      | Gt => (k', v') :: assoc_add k v rest
      end
  end.

(** The Go map an association list stands for, keys in increasing order:
    the first binding of a key is the one [map_lookup] finds. *)
Definition sort_first {A : Type} (m : list (string * A)) : list (string * A) :=
  fold_right (fun kv acc => assoc_set (fst kv) (snd kv) acc) [] m.

(** The map built by assigning the members of an object from left to
    right: the last binding of a key stays. *)
Definition sort_last {A : Type} (m : list (string * A)) : list (string * A) :=
  fold_right (fun kv acc => assoc_add (fst kv) (snd kv) acc) [] m.

(** Keys strictly increasing. *)
Fixpoint keys_sorted {A : Type} (m : list (string * A)) : bool :=
  match m with
  | [] => true
  | (k, _) :: rest =>
      match rest with
      | [] => true
      | (k', _) :: _ => String.ltb k k' && keys_sorted rest
      end
  end.

(** *** From Go values to documents *)

Definition to_json_float (f : float64) : result json :=
  match f with
  | F64 z => Ok (JNumber z)
  | F64NaN => Err UnsupportedValueError
  | F64Inf _ => Err UnsupportedValueError
  end.

Definition to_json_string (s : string) : result string :=
  if ascii_only s then Ok s else Err Unmodelled.

(** A function applied to the elements of a list in order, up to the
    first error. *)
Fixpoint collect {A B : Type} (f : A -> result B) (l : list A) : result (list B) :=
  match l with
  | [] => Ok []
  | x :: rest =>
      match f x with
      | Err e => Err e
      | Ok y =>
          match collect f rest with
          | Err e => Err e
          | Ok ys => Ok (y :: ys)
          end
      end
  end.

(** One entry of a map, given the encoding of values. *)
Definition to_json_member (enc : value -> result json) (kx : string * value)
  : result (string * json) :=
  match to_json_string (fst kx) with
  | Err e => Err e
  | Ok k =>
      match enc (snd kx) with
      | Err e => Err e
      | Ok j => Ok (k, j)
      end
  end.

(** A map, given the encoding of values: the keys come out sorted. *)
Definition to_json_map (enc : value -> result json) (m : list (string * value))
  : result json :=
  match collect (to_json_member enc) m with
  | Err e => Err e
  | Ok ms => Ok (JObject (sort_first ms))
  end.

Fixpoint to_json (v : value) : result json :=
  match v with
  | Nil => Ok JNull
  | Bool b => Ok (JBool b)
  | Int n => Ok (JNumber n)
  | Float64 f => to_json_float f
  | Str s =>
      match to_json_string s with
      | Ok s' => Ok (JString s')
      | Err e => Err e
      end
  | Slice l =>
      match collect to_json l with
      | Ok js => Ok (JArray js)
      | Err e => Err e
      end
  | MapSlice l =>
      match collect (to_json_map to_json) l with
      | Ok js => Ok (JArray js)
      | Err e => Err e
      end
  | Map m => to_json_map to_json m
  end.

(** *** From documents to Go values: what [Unmarshal] stores in an
    [interface{}] *)

Fixpoint of_json (j : json) : value :=
  match j with
  | JNull => Nil
  | JBool b => Bool b
  | JNumber z => Float64 (F64 z)
  | JString s => Str s
  | JArray l => Slice (map of_json l)
  | JObject m => Map (sort_last (map (fun kx => (fst kx, of_json (snd kx))) m))
  end.

(** *** Writing a document *)

Definition hex_digit (n : nat) : ascii :=
  match n with
  | 0 => "0" | 1 => "1" | 2 => "2" | 3 => "3" | 4 => "4" | 5 => "5"
  | 6 => "6" | 7 => "7" | 8 => "8" | 9 => "9" | 10 => "a" | 11 => "b"
  | 12 => "c" | 13 => "d" | 14 => "e" | _ => "f"
  end%nat%char.

(** [htmlSafeSet]: the ASCII bytes written as they are. *)
Definition htmlSafe (c : ascii) : bool :=
  let n := nat_of_ascii c in
  (32 <=? n)%nat && (n <? 128)%nat &&
  negb (Ascii.eqb c dquote) && negb (Ascii.eqb c "\") &&
  negb (Ascii.eqb c "&") && negb (Ascii.eqb c "<") && negb (Ascii.eqb c ">").

(** One byte of a string, as [appendString] writes it with HTML escaping
    on.  Backspace and form feed are written as Go 1.22 and later do;
    earlier releases write them with the six-byte escape, which reads
    back the same. *)
Definition escape_byte (c : ascii) : string :=
  if htmlSafe c then String c EmptyString
  else if Ascii.eqb c "\" then "\\"
  else if Ascii.eqb c dquote then String "\" (String dquote EmptyString)
  else if Ascii.eqb c (ascii_of_nat 8) then "\b"
  else if Ascii.eqb c (ascii_of_nat 12) then "\f"
  else if Ascii.eqb c (ascii_of_nat 10) then "\n"
  else if Ascii.eqb c (ascii_of_nat 13) then "\r"
  else if Ascii.eqb c (ascii_of_nat 9) then "\t"
  else
    let n := nat_of_ascii c in
    String "\" (String "u" (String "0" (String "0"
      (String (hex_digit (n / 16)) (String (hex_digit (n mod 16))
         EmptyString))))).

Fixpoint escape (s : string) : string :=
  match s with
  | EmptyString => EmptyString
  | String c r => (escape_byte c ++ escape r)%string
  end.

Definition quote (s : string) : string :=
  String dquote (escape s ++ String dquote EmptyString)%string.

Definition render_int (z : Z) : string := NilEmpty.string_of_int (Z.to_int z).

Section Separated.
Context {A : Type}.
Variable item : A -> string.

(** The items after the first one, each behind a comma. *)
Fixpoint render_more (l : list A) : string :=
  match l with
  | [] => EmptyString
  | y :: l' => String "," (item y ++ render_more l')%string
  end.

Definition render_list (l : list A) : string :=
  match l with
  | [] => EmptyString
  | x :: rest => (item x ++ render_more rest)%string
  end.

End Separated.

Definition render_member (render : json -> string) (kx : string * json) : string :=
  (quote (fst kx) ++ String ":" (render (snd kx)))%string.

(** The compact text [Marshal] produces. *)
Fixpoint render (j : json) : string :=
  match j with
  | JNull => "null"
  | JBool true => "true"
  | JBool false => "false"
  | JNumber z => render_int z
  | JString s => quote s
  | JArray l => String "[" (render_list render l ++ "]")%string
  | JObject m => String "{" (render_list (render_member render) m ++ "}")%string
  end.

(** *** Reading a document *)

Definition is_space (c : ascii) : bool :=
  Ascii.eqb c " " || Ascii.eqb c (ascii_of_nat 9) ||
  Ascii.eqb c (ascii_of_nat 10) || Ascii.eqb c (ascii_of_nat 13).

Fixpoint skip_ws (s : string) : string :=
  match s with
  | EmptyString => s
  | String c r => if is_space c then skip_ws r else s
  end.

Definition hex_value (c : ascii) : option nat :=
  let n := nat_of_ascii c in
  if (48 <=? n)%nat && (n <=? 57)%nat then Some (n - 48)%nat
  else if (97 <=? n)%nat && (n <=? 102)%nat then Some (n - 87)%nat
  else if (65 <=? n)%nat && (n <=? 70)%nat then Some (n - 55)%nat
  else None.

Definition hex4 (h1 h2 h3 h4 : ascii) : option nat :=
  match hex_value h1, hex_value h2, hex_value h3, hex_value h4 with
  | Some a, Some b, Some c, Some d =>
      Some (((a * 16 + b) * 16 + c) * 16 + d)%nat
  | _, _, _, _ => None
  end.

(** The byte a one-letter escape stands for. *)
Definition unescape (e : ascii) : option ascii :=
  if Ascii.eqb e dquote then Some dquote
  else if Ascii.eqb e "\" then Some "\"%char
  else if Ascii.eqb e "/" then Some "/"%char
  else if Ascii.eqb e "b" then Some (ascii_of_nat 8)
  else if Ascii.eqb e "f" then Some (ascii_of_nat 12)
  else if Ascii.eqb e "n" then Some (ascii_of_nat 10)
  else if Ascii.eqb e "r" then Some (ascii_of_nat 13)
  else if Ascii.eqb e "t" then Some (ascii_of_nat 9)
  else None.

Definition cons_byte (c : ascii) (r : result (string * string))
  : result (string * string) :=
  match r with
  | Ok (s, rest) => Ok (String c s, rest)
  | Err e => Err e
  end.

(** The text of a string after its opening quote, up to and including the
    closing quote. *)
Fixpoint parse_string (s : string) : result (string * string) :=
  match s with
  | EmptyString => Err SyntaxError
  | String c r =>
      if Ascii.eqb c dquote then Ok (EmptyString, r)
      else if Ascii.eqb c "\" then
        match r with
        | EmptyString => Err SyntaxError
        | String e r1 =>
            if Ascii.eqb e "u" then
              match r1 with
              | String h1 (String h2 (String h3 (String h4 r2))) =>
                  match hex4 h1 h2 h3 h4 with
                  | None => Err SyntaxError
                  | Some code =>
                      if (code <? 128)%nat
                      then cons_byte (ascii_of_nat code) (parse_string r2)
                      else Err Unmodelled
                  end
              | _ => Err SyntaxError
              end
            else
              match unescape e with
              | Some c' => cons_byte c' (parse_string r1)
              | None => Err SyntaxError
              end
        end
      else if (nat_of_ascii c <? 32)%nat then Err SyntaxError
      else if ascii_byte c then cons_byte c (parse_string r)
      else Err Unmodelled
  end.

Definition digit_of (c : ascii) : option (uint -> uint) :=
  match c with
  | "0" => Some D0 | "1" => Some D1 | "2" => Some D2 | "3" => Some D3
  | "4" => Some D4 | "5" => Some D5 | "6" => Some D6 | "7" => Some D7
  | "8" => Some D8 | "9" => Some D9 | _ => None
  end%char.

(** The longest run of digits at the head of the input. *)
Fixpoint scan_digits (s : string) : uint * string :=
  match s with
  | EmptyString => (Decimal.Nil, s)
  | String c r =>
      match digit_of c with
      | Some d => let (ds, rest) := scan_digits r in (d ds, rest)
      | None => (Decimal.Nil, s)
      end
  end.

Definition starts_fraction_or_exponent (s : string) : bool :=
  match s with
  | String c _ => Ascii.eqb c "." || Ascii.eqb c "e" || Ascii.eqb c "E"
  | EmptyString => false
  end.

(** The digits of a number.  A fraction or an exponent part, well formed
    or not, a negative zero and a magnitude of [2^53] or more are all
    answered with [Unmodelled]. *)
Definition parse_digits (negative : bool) (s : string)
  : result (json * string) :=
  let (d, rest) := scan_digits s in
  match d with
  | Decimal.Nil => Err SyntaxError
  | D0 (D0 _ | D1 _ | D2 _ | D3 _ | D4 _ | D5 _ | D6 _ | D7 _ | D8 _ | D9 _) =>
      Err SyntaxError
  | _ =>
      if starts_fraction_or_exponent rest then Err Unmodelled
      else
        let z := Z.of_uint d in
        if negative && (z =? 0) then Err Unmodelled
        else if z <? 2 ^ 53 then Ok (JNumber (if negative then - z else z), rest)
        else Err Unmodelled
  end.

Definition parse_number (s : string) : result (json * string) :=
  match s with
  | String c r => if Ascii.eqb c "-" then parse_digits true r else parse_digits false s
  | EmptyString => Err SyntaxError
  end.

(** The input after [word], when it starts with it. *)
Fixpoint strip_prefix (word s : string) : option string :=
  match word with
  | EmptyString => Some s
  | String a w =>
      match s with
      | String b r => if Ascii.eqb a b then strip_prefix w r else None
      | EmptyString => None
      end
  end.

Definition parse_literal (word : string) (j : json) (s : string)
  : result (json * string) :=
  match strip_prefix word s with
  | Some rest => Ok (j, rest)
  | None => Err SyntaxError
  end.

(** The input after the byte [c], when [c] is the next byte that is not
    white space. *)
Definition next_is (c : ascii) (s : string) : option string :=
  match skip_ws s with
  | String c' r => if Ascii.eqb c' c then Some r else None
  | EmptyString => None
  end.

Section Containers.
Variable parse_element : string -> result (json * string).

(** After an element of an array: a comma and one more element, or the
    closing bracket. *)
Fixpoint parse_elements (n : nat) (s : string) : result (list json * string) :=
  match n with
  | O => Err SyntaxError
  | S n' =>
      match next_is "," s with
      | Some r =>
          match parse_element r with
          | Err e => Err e
          | Ok (y, r1) =>
              match parse_elements n' r1 with
              | Err e => Err e
              | Ok (ys, r2) => Ok (y :: ys, r2)
              end
          end
      | None =>
          match next_is "]" s with
          | Some r => Ok ([], r)
          | None => Err SyntaxError
          end
      end
  end.

(** One member of an object: a string, a colon and a value. *)
Definition parse_member (s : string) : result ((string * json) * string) :=
  match next_is dquote s with
  | None => Err SyntaxError
  | Some r =>
      match parse_string r with
      | Err e => Err e
      | Ok (k, r1) =>
          match next_is ":" r1 with
          | None => Err SyntaxError
          | Some r2 =>
              match parse_element r2 with
              | Err e => Err e
              | Ok (x, r3) => Ok ((k, x), r3)
              end
          end
      end
  end.

(** After a member of an object: a comma and one more member, or the
    closing brace. *)
Fixpoint parse_members (n : nat) (s : string)
  : result (list (string * json) * string) :=
  match n with
  | O => Err SyntaxError
  | S n' =>
      match next_is "," s with
      | Some r =>
          match parse_member r with
          | Err e => Err e
          | Ok (kx, r1) =>
              match parse_members n' r1 with
              | Err e => Err e
              | Ok (ms, r2) => Ok (kx :: ms, r2)
              end
          end
      | None =>
          match next_is "}" s with
          | Some r => Ok ([], r)
          | None => Err SyntaxError
          end
      end
  end.

End Containers.

(** A value; [nested] reads the values one level down, and is missing
    when the nesting limit is reached. *)
Definition parse_value_at (nested : option (string -> result (json * string)))
    (s : string) : result (json * string) :=
  match skip_ws s with
  | EmptyString => Err SyntaxError
  | String c r =>
      if Ascii.eqb c dquote then
        match parse_string r with
        | Ok (str, r1) => Ok (JString str, r1)
        | Err e => Err e
        end
      else if Ascii.eqb c "[" then
        match nested with
        | None => Err MaxDepthError
        | Some parse_element =>
            match next_is "]" r with
            | Some r1 => Ok (JArray [], r1)
            | None =>
                match parse_element r with
                | Err e => Err e
                | Ok (x, r1) =>
                    match parse_elements parse_element (String.length r1) r1 with
                    | Err e => Err e
                    | Ok (xs, r2) => Ok (JArray (x :: xs), r2)
                    end
                end
            end
        end
      else if Ascii.eqb c "{" then
        match nested with
        | None => Err MaxDepthError
        | Some parse_element =>
            match next_is "}" r with
            | Some r1 => Ok (JObject [], r1)
            | None =>
                match parse_member parse_element r with
                | Err e => Err e
                | Ok (kx, r1) =>
                    match parse_members parse_element (String.length r1) r1 with
                    | Err e => Err e
                    | Ok (ms, r2) => Ok (JObject (kx :: ms), r2)
                    end
                end
            end
        end
      else if Ascii.eqb c "n" then parse_literal "null" JNull (String c r)
      else if Ascii.eqb c "t" then parse_literal "true" (JBool true) (String c r)
      else if Ascii.eqb c "f" then parse_literal "false" (JBool false) (String c r)
      else parse_number (String c r)
  end.

(** A value, with [depth] levels of nesting still allowed below it. *)
Fixpoint parse_value (depth : nat) : string -> result (json * string) :=
  parse_value_at
    match depth with
    | O => None
    | S d => Some (parse_value d)
    end.

(** A whole input: one value, then nothing but white space. *)
Definition parse (data : bytes) : result json :=
  match parse_value maxNestingDepth data with
  | Err e => Err e
  | Ok (j, rest) =>
      match skip_ws rest with
      | EmptyString => Ok j
      | _ => Err SyntaxError
      end
  end.

(** *** [json.Marshal] and [json.Unmarshal] *)

Definition Marshal (v : trace) : result bytes :=
  match to_json (Map v) with
  | Ok j => Ok (render j)
  | Err e => Err e
  end.

Definition Unmarshal (data : bytes) : result trace :=
  match parse data with
  | Err e => Err e
  | Ok j =>
      match of_json j with
      | Map m => Ok m
      | Nil => Ok []
      | _ => Err UnmarshalTypeError
      end
  end.

(** *** The fragment the model is exact on *)

(** Where a number may end: at the end of the input or before a byte
    that is neither a digit nor the start of a fraction or exponent. *)
Definition number_end (s : string) : bool :=
  match s with
  | EmptyString => true
  | String c _ =>
      match digit_of c with
      | Some _ => false
      | None => negb (starts_fraction_or_exponent s)
      end
  end.

(** The first byte of a number. *)
Definition number_start (c : ascii) : bool :=
  match digit_of c with
  | Some _ => true
  | None => Ascii.eqb c "-"
  end.

(** The first byte of a value as [render] writes it. *)
Definition value_start (c : ascii) : bool :=
  number_start c || Ascii.eqb c dquote || Ascii.eqb c "[" || Ascii.eqb c "{" ||
  Ascii.eqb c "n" || Ascii.eqb c "t" || Ascii.eqb c "f".

Definition starts_with (p : ascii -> bool) (s : string) : bool :=
  match s with
  | String c _ => p c
  | EmptyString => false
  end.

(** Documents the model reads back: ASCII strings, numbers of magnitude
    below [2^53], containers nested at most [d] deep. *)
Fixpoint jfits (j : json) (d : nat) {struct j} : bool :=
  match j with
  | JNull | JBool _ => true
  | JNumber z => Z.abs z <? 2 ^ 53
  | JString s => ascii_only s
  | JArray l =>
      match d with
      | O => false
      | S d' => forallb (fun x => jfits x d') l
      end
  | JObject m =>
      match d with
      | O => false
      | S d' => forallb (fun kx => ascii_only (fst kx) && jfits (snd kx) d') m
      end
  end.

(** Go values that [Unmarshal] itself produces (no [Int], no typed
    slice, no NaN or infinity), within the same fragment, maps with their
    keys strictly increasing, containers nested at most [d] deep. *)
Fixpoint native_at (v : value) (d : nat) {struct v} : bool :=
  match v with
  | Nil | Bool _ => true
  | Int _ => false
  | Float64 (F64 z) => Z.abs z <? 2 ^ 53
  | Float64 _ => false
  | Str s => ascii_only s
  | Slice l =>
      match d with
      | O => false
      | S d' => forallb (fun x => native_at x d') l
      end
  | MapSlice _ => false
  | Map m =>
      match d with
      | O => false
      | S d' =>
          keys_sorted m &&
          forallb (fun kx => ascii_only (fst kx) && native_at (snd kx) d') m
      end
  end.

(** A trace made of such values only. *)
Definition json_native (t : trace) : bool := native_at (Map t) maxNestingDepth.

(** Induction over documents and over values, through their lists. *)
Definition json_ind' (P : json -> Prop)
    (Hnull : P JNull) (Hbool : forall b, P (JBool b))
    (Hnum : forall z, P (JNumber z)) (Hstr : forall s, P (JString s))
    (Harr : forall l, Forall P l -> P (JArray l))
    (Hobj : forall m, Forall (fun kx => P (snd kx)) m -> P (JObject m)) :
  forall j, P j :=
  fix F (j : json) : P j :=
    match j with
    | JNull => Hnull
    | JBool b => Hbool b
    | JNumber z => Hnum z
    | JString s => Hstr s
    | JArray l =>
        Harr l ((fix G (l : list json) : Forall P l :=
                   match l with
                   | [] => Forall_nil _
                   | x :: r => Forall_cons x (F x) (G r)
                   end) l)
    | JObject m =>
        Hobj m ((fix G (m : list (string * json)) : Forall (fun kx => P (snd kx)) m :=
                   match m with
                   | [] => Forall_nil _
                   | kx :: r => Forall_cons kx (F (snd kx)) (G r)
                   end) m)
    end.

Definition value_ind' (P : value -> Prop)
    (Hnil : P Nil) (Hbool : forall b, P (Bool b)) (Hint : forall n, P (Int n))
    (Hfloat : forall f, P (Float64 f)) (Hstr : forall s, P (Str s))
    (Hslice : forall l, Forall P l -> P (Slice l))
    (Hmaps : forall l, P (MapSlice l))
    (Hmap : forall m, Forall (fun kx => P (snd kx)) m -> P (Map m)) :
  forall v, P v :=
  fix F (v : value) : P v :=
    match v with
    | Nil => Hnil
    | Bool b => Hbool b
    | Int n => Hint n
    | Float64 f => Hfloat f
    | Str s => Hstr s
    | Slice l =>
        Hslice l ((fix G (l : list value) : Forall P l :=
                     match l with
                     | [] => Forall_nil _
                     | x :: r => Forall_cons x (F x) (G r)
                     end) l)
    | MapSlice l => Hmaps l
    | Map m =>
        Hmap m ((fix G (m : list (string * value)) : Forall (fun kx => P (snd kx)) m :=
                   match m with
                   | [] => Forall_nil _
                   | kx :: r => Forall_cons kx (F (snd kx)) (G r)
                   end) m)
    end.

(** The document of a JSON-native value is read back as that value. *)
Definition json_of_native (d : nat) (v : value) (j : json) : Prop :=
  of_json j = v /\ jfits j d = true.

(** The reader [pv] gives back [x] from its text, whatever follows. *)
Definition reads_back (pv : string -> result (json * string)) (x : json) : Prop :=
  forall rest, number_end rest = true -> pv (render x ++ rest)%string = Ok (x, rest).

End Json.

(** ** A model of badger's entry validation

    The checks [Txn.Set] applies to an entry under the default options:
    the key is not empty, does not start with the engine's reserved prefix
    and is at most 65000 bytes long; the value fits a value-log file. *)
Module Badger.

Definition ErrEmptyKey : error := LibErr "badger" "Key cannot be empty".
Definition ErrInvalidKey : error := LibErr "badger" "Key is using a reserved !badger! prefix".
Definition ErrExceedsSize : error := LibErr "badger" "Key or value exceeds the size limit".

Definition maxKeySize : Z := 65000.
Definition ValueLogFileSize : Z := 2 ^ 30 - 1.

Definition modify_check (key val : bytes) : option error :=
  if String.eqb key "" then Some ErrEmptyKey
  else if String.prefix "!badger!" key then Some ErrInvalidKey
  else if maxKeySize <? len_bytes key then Some ErrExceedsSize
  else if ValueLogFileSize <? len_bytes val then Some ErrExceedsSize
  else None.

End Badger.

(** The store linked against the two models. *)
Definition golibs : Libs := {|
  json_Marshal := Json.Marshal;
  json_Unmarshal := Json.Unmarshal;
  txn_modify_check := Badger.modify_check
|}.

(** ** Vocabulary of the statements *)

(** The id a trace is stored under, when it has one. *)
Definition trace_id_of (t : trace) : option string :=
  match map_lookup "trace_id" t with
  | Some (Str id) => Some id
  | _ => None
  end.

(** The key of a trace id. *)
Definition trace_key (id : string) : bytes := ("trace:" ++ id)%string.

(** The number of spans [GetStats] counts in a decoded trace. *)
Definition counted_spans (t : trace) : Z :=
  match map_lookup "spans" t with
  | Some (Slice spans) => Z.of_nat (List.length spans)
  | _ => 0
  end.

(** The number of entries of the span sequence of a trace as its producer
    built it, a [[]interface{}] or a [[]map[string]interface{}]. *)
Definition span_count (t : trace) : Z :=
  match map_lookup "spans" t with
  | Some (Slice spans) => Z.of_nat (List.length spans)
  | Some (MapSlice spans) => Z.of_nat (List.length spans)
  | _ => 0
  end.

Definition zsum (l : list Z) : Z := fold_right Z.add 0 l.

Section Vocabulary.
Context {L : Libs}.

(** Storing traces one after the other, stopping at the first error. *)
Fixpoint StoreTraces (s : DB) (ts : list trace) : DB * option error :=
  match ts with
  | [] => (s, None)
  | t :: rest =>
      match StoreTrace s t with
      | (s', None) => StoreTraces s' rest
      | (s', Some e) => (s', Some e)
      end
  end.

(** The record [val] decodes to the trace [t]. *)
Definition decodes (e : bytes * bytes) (t : trace) : Prop :=
  json_Unmarshal (snd e) = Ok t.

(** The codec gives back [t] itself. *)
Definition round_trips (t : trace) : Prop :=
  exists data, json_Marshal t = Ok data /\ json_Unmarshal data = Ok t.

(** The codec gives back a trace in which [GetStats] counts the spans the
    producer put in [t]. *)
Definition spans_survive (t : trace) : Prop :=
  exists data t', json_Marshal t = Ok data /\ json_Unmarshal data = Ok t' /\
                  counted_spans t' = span_count t.

(** What the loop of [GetTraces] computes: the decodings of the first
    records, stopping after [n] of them, or the error of the first record
    that does not decode. *)
Fixpoint decode_first (n : nat) (items : list (bytes * bytes))
  : result (list trace) :=
  match n, items with
  | O, _ => Ok []
  | _, [] => Ok []
  | S n', (_, val) :: rest =>
      match json_Unmarshal val with
      | Err e => Err (Errorf_w "failed to unmarshal trace" e)
      | Ok t =>
          match decode_first n' rest with
          | Ok ts => Ok (t :: ts)
          | Err e => Err e
          end
      end
  end.

(** The record written for a trace: its key and its encoding. *)
Definition written (t : trace) (e : bytes * bytes) : Prop :=
  exists id, trace_id_of t = Some id /\ fst e = trace_key id /\
             json_Marshal t = Ok (snd e).

(** The spans [GetStats] counts in a record. *)
Definition record_spans (e : bytes * bytes) : Z :=
  match json_Unmarshal (snd e) with
  | Ok t => counted_spans t
  | Err _ => 0
  end.

End Vocabulary.

(** The records under the trace prefix, as [GetTraces] and [GetStats]
    iterate over them. *)
Definition stored_records (s : DB) : list (bytes * bytes) :=
  txn_NewIterator "trace:" s.

Definition int64_range (z : Z) : Prop := - 2 ^ 63 <= z < 2 ^ 63.

(** The byte lengths of the records. *)
Definition record_sizes (items : list (bytes * bytes)) : list Z :=
  map (fun e => len_bytes (snd e)) items.

(** ** Example data *)

(** A trace with the given id and spans, keys in increasing order. *)
Definition mk_trace (id : string) (spans : value) : trace :=
  [("spans", spans); ("trace_id", Str id)].

Definition span_a : value := Map [("name", Str "a")].
Definition span_b : value := Map [("name", Str "b")].

Definition trace_a : trace := mk_trace "a" (Slice [span_a]).
Definition trace_b : trace := mk_trace "b" (Slice [span_a; span_b]).
Definition trace_c : trace := mk_trace "c" (Slice []).

(** Three stored records, the middle one cut down to its first byte. *)
Definition three_records : DB :=
  fst (StoreTraces (L := golibs) NewBadgerStore [trace_a; trace_b; trace_c]).
Definition corrupt_store : DB := kv_set "trace:b" "{" three_records.

(** A trace whose id is the empty string. *)
Definition trace_empty_id : trace := mk_trace "" (Slice []).

Definition trace_t1_two : trace := mk_trace "t1" (Slice [span_a; span_b]).
Definition trace_t1_one : trace := mk_trace "t1" (Slice [span_a]).
Definition trace_d : trace := mk_trace "d" (MapSlice [[("name", Str "a")]; []]).

(** The trace the repository's test of [StoreTrace] stores: its spans are
    an empty [[]map[string]interface{}]. *)
Definition test_trace : trace :=
  [ ("name", Str "test-trace");
    ("spans", MapSlice []);
    ("start_time", Str "2024-09-20T10:00:00Z");
    ("status", Str "ok");
    ("trace_id", Str "test-trace-1") ].

(** A trace carrying a Go [int]. *)
Definition trace_with_int : trace :=
  [ ("duration_ms", Int 12); ("spans", Slice []); ("trace_id", Str "t2") ].

(** * The HTTP layer of [server]

    The four handlers of the REST API.  A handler reads the store of the
    server and answers with a status code and the value it hands to
    [c.JSON]; [handleStoreTrace] also writes.  The binding of a request
    body by gin is a second interface. *)

(** [c.ShouldBindJSON(&trace)] on the body of the request. *)
Class Gin : Type := {
  ShouldBindJSON : bytes -> result trace
}.

(** What a handler passes to [c.JSON]: the status code and the object. *)
Record Response : Type := {
  StatusCode : Z;
  Body : value
}.

Definition StatusOK : Z := 200.
Definition StatusBadRequest : Z := 400.
Definition StatusNotFound : Z := 404.
Definition StatusInternalServerError : Z := 500.

(** [gin.H{"error": msg}]. *)
Definition error_body (msg : string) : value := Map [("error", Str msg)].

Section Handlers.
Context {L : Libs} {G : Gin}.

Definition handleGetTraces (s : DB) : Response :=
  match GetTraces s 100 with
  | Err e =>
      {| StatusCode := StatusInternalServerError; Body := error_body (Error e) |}
  | Ok traces => {| StatusCode := StatusOK; Body := MapSlice traces |}
  end.

Definition handleStoreTrace (s : DB) (body : bytes) : DB * Response :=
  match ShouldBindJSON body with
  | Err e =>
      (s, {| StatusCode := StatusBadRequest; Body := error_body (Error e) |})
  | Ok trace =>
      match StoreTrace s trace with
      | (s', Some e) =>
          (s', {| StatusCode := StatusInternalServerError;
                  Body := error_body (Error e) |})
      | (s', None) =>
          (s', {| StatusCode := StatusOK; Body := Map [("status", Str "stored")] |})
      end
  end.

Definition handleGetTrace (s : DB) (id : string) : Response :=
  match GetTrace s id with
  | Err _ =>
      {| StatusCode := StatusNotFound; Body := error_body "trace not found" |}
  | Ok trace => {| StatusCode := StatusOK; Body := Map trace |}
  end.

Definition handleGetStats (s : DB) : Response :=
  match GetStats s with
  | Err e =>
      {| StatusCode := StatusInternalServerError; Body := error_body (Error e) |}
  | Ok stats => {| StatusCode := StatusOK; Body := Map stats |}
  end.

End Handlers.

(** A model of gin's JSON binding: [json.NewDecoder(body).Decode] reads
    the first value of the body; what follows an object or an array is
    not looked at, what follows any other value must be white space. *)
Module GinModel.

Definition is_container (j : Json.json) : bool :=
  match j with
  | Json.JArray _ | Json.JObject _ => true
  | _ => false
  end.

Definition ends_value (rest : string) : bool :=
  match rest with
  | EmptyString => true
  | String c _ => Json.is_space c
  end.

Definition Decode (body : bytes) : result trace :=
  match Json.parse_value Json.maxNestingDepth body with
  | Err e => Err e
  | Ok (j, rest) =>
      if is_container j || ends_value rest then
        match Json.of_json j with
        | Map m => Ok m
        | Nil => Ok []
        | _ => Err Json.UnmarshalTypeError
        end
      else Err Json.SyntaxError
  end.

End GinModel.

Definition gogin : Gin := {| ShouldBindJSON := GinModel.Decode |}.

(** * The earlier, mocked store

    The same file keeps a variant of the store whose reads are mocked.
    Its listing walks every key of the database and emits a canned trace
    for each key that is exactly ["trace:"]. *)
Module Mock.

Section Clock.
(** [time.Now().Add(-time.Hour).Format(time.RFC3339)] at the moment the
    trace numbered [count] is built. *)
Variable start_time : Z -> string.

Definition mock_trace (id : string) (count : Z) : trace :=
  [ ("id", Str id);
    ("name", Str "test-trace");
    ("spans", MapSlice []);
    ("start_time", Str (start_time count));
    ("status", Str "ok") ].

Fixpoint GetTraces_loop (items : list (bytes * bytes)) (count limit : Z)
    (traces : list trace) : list trace :=
  match items with
  | [] => traces
  | (key, _) :: rest =>
      if count <? limit then
        if String.eqb key "trace:" then
          GetTraces_loop rest (count + 1) limit
            (traces ++ [mock_trace ("trace-" ++ decimal count) count])
        else GetTraces_loop rest count limit traces
      else traces
  end.

Definition GetTraces (s : DB) (limit : Z) : result (list trace) :=
  match db_View s (fun txn => Ok (GetTraces_loop txn 0 limit [])) with
  | Err e => Err (Errorf_w "failed to get traces" e)
  | Ok traces => Ok traces
  end.

Definition GetTrace (s : DB) (id : string) : result trace :=
  Ok (mock_trace id 0).

Definition GetStats (s : DB) : result trace :=
  Ok [ ("storage_size", Str "0 MB"); ("total_spans", Int 0); ("total_traces", Int 0) ].

End Clock.

End Mock.

(** * The normal form of a trace under the codec *)

(** What [encoding/json] makes of a value on the way through [Marshal]
    and [Unmarshal]: a number becomes a [float64], a typed slice of maps a
    [[]interface{}]. *)
Fixpoint normalize (v : value) : value :=
  match v with
  | Int n => Float64 (F64 n)
  | Slice l => Slice (map normalize l)
  | MapSlice l =>
      Slice (map (fun m => Map (map (fun kx => (fst kx, normalize (snd kx))) m)) l)
  | Map m => Map (map (fun kx => (fst kx, normalize (snd kx))) m)
  | _ => v
  end.

Definition normalize_trace (t : trace) : trace :=
  map (fun kx => (fst kx, normalize (snd kx))) t.

(** The values the codec model follows exactly: [Int] and typed slices
    included, strings in ASCII, numbers of magnitude below [2^53], maps
    with strictly increasing keys, at most [d] levels of nesting. *)
Fixpoint modelled_at (v : value) (d : nat) {struct v} : bool :=
  let members := fun (d' : nat) (m : list (string * value)) =>
    Json.keys_sorted m &&
    forallb (fun kx => Json.ascii_only (fst kx) && modelled_at (snd kx) d') m in
  match v with
  | Nil | Bool _ => true
  | Int n => Z.abs n <? 2 ^ 53
  | Float64 (F64 z) => Z.abs z <? 2 ^ 53
  | Float64 _ => false
  | Str s => Json.ascii_only s
  | Slice l =>
      match d with
      | O => false
      | S d' => forallb (fun x => modelled_at x d') l
      end
  | MapSlice l =>
      match d with
      | S (S d') => forallb (members d') l
      | S O => match l with [] => true | _ => false end
      | O => false
      end
  | Map m =>
      match d with
      | O => false
      | S d' => members d' m
      end
  end.

Definition modelled (t : trace) : bool := modelled_at (Map t) Json.maxNestingDepth.

(** The document of a modelled value is read back as its normal form. *)
Definition json_of_modelled (d : nat) (v : value) (j : Json.json) : Prop :=
  Json.of_json j = normalize v /\ Json.jfits j d = true.

Definition normalize_member (kx : string * value) : string * value :=
  (fst kx, normalize (snd kx)).

Definition value_ind_full (P : value -> Prop)
    (Hnil : P Nil) (Hbool : forall b, P (Bool b)) (Hint : forall n, P (Int n))
    (Hfloat : forall f, P (Float64 f)) (Hstr : forall s, P (Str s))
    (Hslice : forall l, Forall P l -> P (Slice l))
    (Hmaps : forall l, Forall (Forall (fun kx => P (snd kx))) l -> P (MapSlice l))
    (Hmap : forall m, Forall (fun kx => P (snd kx)) m -> P (Map m)) :
  forall v, P v :=
  fix F (v : value) : P v :=
    let members :=
      fix G (m : list (string * value)) : Forall (fun kx => P (snd kx)) m :=
        match m with
        | [] => Forall_nil _
        | kx :: r => Forall_cons kx (F (snd kx)) (G r)
        end in
    match v with
    | Nil => Hnil
    | Bool b => Hbool b
    | Int n => Hint n
    | Float64 f => Hfloat f
    | Str s => Hstr s
    | Slice l =>
        Hslice l ((fix G (l : list value) : Forall P l :=
                     match l with
                     | [] => Forall_nil _
                     | x :: r => Forall_cons x (F x) (G r)
                     end) l)
    | MapSlice l =>
        Hmaps l ((fix G (l : list (list (string * value)))
                    : Forall (Forall (fun kx => P (snd kx))) l :=
                    match l with
                    | [] => Forall_nil _
                    | m :: r => Forall_cons m (members m) (G r)
                    end) l)
    | Map m => Hmap m (members m)
    end.

(** A [float64] that is a NaN or an infinity somewhere in a value. *)
Fixpoint has_nonfinite (v : value) : bool :=
  match v with
  | Float64 (F64 _) => false
  | Float64 _ => true
  | Slice l => existsb has_nonfinite l
  | MapSlice l => existsb (existsb (fun kx => has_nonfinite (snd kx))) l
  | Map m => existsb (fun kx => has_nonfinite (snd kx)) m
  | _ => false
  end.

(** ** More example data *)

(** The body of a request carrying a trace. *)
Definition body_of (t : trace) : bytes :=
  match Json.Marshal t with
  | Ok data => data
  | Err _ => ""
  end.

(** A hundred traces with the ids [t100] to [t199], and a store that
    holds them and, behind them in key order, one record that does not
    decode. *)
Definition many_traces : list trace :=
  map (fun i => mk_trace ("t" ++ decimal (Z.of_nat i)) (Slice [])) (seq 100 100).
Definition many_store : DB :=
  kv_set "trace:z" "{"
    (fst (StoreTraces (L := golibs) NewBadgerStore many_traces)).

(** A trace holding a NaN inside a slice. *)
Definition trace_nan : trace :=
  [ ("scores", Slice [Float64 (F64 1); Float64 F64NaN]); ("trace_id", Str "n") ].

(** * Properties *)

(** ** The key-value engine *)

Lemma kv_get_insert (key val : bytes) (db : DB) :
  kv_get key db = None -> kv_get key (kv_insert key val db) = Some val.
Proof.
  unfold kv_get. induction db as [|[k v] rest IH]; simpl.
  - now rewrite String.eqb_refl.
  - destruct (String.eqb k key) eqn:Hk; simpl; [discriminate|].
    intros H. destruct (String.ltb k key); simpl.
    + rewrite Hk. now apply IH.
    + now rewrite String.eqb_refl.
Qed.

Lemma kv_get_delete (key : bytes) (db : DB) : kv_get key (kv_delete key db) = None.
Proof.
  unfold kv_get, kv_delete. induction db as [|[k v] rest IH]; simpl; [reflexivity|].
  destruct (String.eqb k key) eqn:Hk; simpl; [exact IH|].
  now rewrite Hk.
Qed.

Lemma kv_get_set (key val : bytes) (db : DB) :
  kv_get key (kv_set key val db) = Some val.
Proof. unfold kv_set. apply kv_get_insert, kv_get_delete. Qed.

Lemma kv_count_insert (key k val : bytes) (db : DB) :
  kv_count key (kv_insert k val db) =
  ((if String.eqb k key then 1 else 0) + kv_count key db)%nat.
Proof.
  unfold kv_count. induction db as [|[k' v'] rest IH]; simpl.
  - destruct (String.eqb k key); reflexivity.
  - destruct (String.ltb k' k); simpl.
    + destruct (String.eqb k' key); simpl; rewrite IH; lia.
    + destruct (String.eqb k key); reflexivity.
Qed.

Lemma kv_count_delete (key : bytes) (db : DB) : kv_count key (kv_delete key db) = 0%nat.
Proof.
  unfold kv_count, kv_delete. induction db as [|[k v] rest IH]; simpl; [reflexivity|].
  destruct (String.eqb k key) eqn:Hk; simpl; [exact IH|].
  now rewrite Hk.
Qed.

Lemma kv_count_set (key val : bytes) (db : DB) :
  kv_count key (kv_set key val db) = 1%nat.
Proof.
  unfold kv_set. rewrite kv_count_insert, kv_count_delete, String.eqb_refl.
  reflexivity.
Qed.

Lemma kv_delete_absent (key : bytes) (db : DB) :
  kv_get key db = None -> kv_delete key db = db.
Proof.
  unfold kv_get, kv_delete. induction db as [|[k v] rest IH]; simpl; [reflexivity|].
  destruct (String.eqb k key) eqn:Hk; simpl; [discriminate|].
  intros H. now rewrite IH.
Qed.

Section StorageFacts.
Context {L : Libs}.

(** ** StoreTrace *)

(** What [StoreTrace] does once the id has been extracted. *)
Lemma StoreTrace_with_id (s : DB) (t : trace) (id : string) :
  map_lookup "trace_id" t = Some (Str id) ->
  StoreTrace s t =
  match json_Marshal t with
  | Err e => (s, Some (Errorf_w "failed to marshal trace" e))
  | Ok data =>
      match txn_modify_check (trace_key id) data with
      | Some e => (s, Some e)
      | None => (kv_set (trace_key id) data s, None)
      end
  end.
Proof.
  intros H. unfold StoreTrace. rewrite H.
  destruct (json_Marshal t) as [data|e]; [|reflexivity].
  unfold db_Update, txn_Set, trace_key.
  destruct (txn_modify_check _ data); reflexivity.
Qed.

Lemma StoreTrace_without_id (s : DB) (t : trace) :
  trace_id_of t = None ->
  StoreTrace s t = (s, Some (Errorf "trace_id is required")).
Proof.
  unfold trace_id_of, StoreTrace. intros H.
  destruct (map_lookup "trace_id" t) as [[]|]; try reflexivity; discriminate.
Qed.

(** A successful [StoreTrace] wrote the encoding of the trace under the
    key of its id. *)
Lemma StoreTrace_success (s s' : DB) (t : trace) :
  StoreTrace s t = (s', None) ->
  exists id data,
    map_lookup "trace_id" t = Some (Str id) /\
    json_Marshal t = Ok data /\
    s' = kv_set (trace_key id) data s.
Proof.
  intros H. destruct (trace_id_of t) as [id|] eqn:Hid.
  - unfold trace_id_of in Hid.
    destruct (map_lookup "trace_id" t) as [[]|] eqn:Hl; try discriminate.
    injection Hid as ->. rewrite (StoreTrace_with_id s t id Hl) in H.
    destruct (json_Marshal t) as [data|e]; [|discriminate].
    destruct (txn_modify_check _ data); [discriminate|].
    injection H as <-. now exists id, data.
  - rewrite (StoreTrace_without_id s t Hid) in H. discriminate.
Qed.

(** A failed [StoreTrace] left the store as it was. *)
Lemma StoreTrace_failure (s s' : DB) (t : trace) (e : error) :
  StoreTrace s t = (s', Some e) -> s' = s.
Proof.
  intros H. destruct (trace_id_of t) as [id|] eqn:Hid.
  - unfold trace_id_of in Hid.
    destruct (map_lookup "trace_id" t) as [[]|] eqn:Hl; try discriminate.
    injection Hid as ->. rewrite (StoreTrace_with_id s t id Hl) in H.
    destruct (json_Marshal t) as [data|e']; [|now injection H].
    destruct (txn_modify_check _ data); [now injection H|discriminate].
  - rewrite (StoreTrace_without_id s t Hid) in H. now injection H.
Qed.

End StorageFacts.

(** ** GetTraces *)

Lemma prefix_check (key : bytes) :
  String.prefix "trace:" key = true ->
  String.eqb (substring 0 6 key) "trace:" = true.
Proof.
  intros H. apply (proj1 (prefix_correct "trace:" key)) in H. simpl in H.
  rewrite H. reflexivity.
Qed.

Lemma stored_records_prefix (s : DB) :
  Forall (fun e => String.prefix "trace:" (fst e) = true) (stored_records s).
Proof.
  unfold stored_records, txn_NewIterator. apply Forall_forall.
  intros e He. now apply filter_In in He.
Qed.

Section Listing.
Context {L : Libs}.

Lemma GetTraces_loop_decode_first (items : list (bytes * bytes)) :
  Forall (fun e => String.prefix "trace:" (fst e) = true) items ->
  forall (count limit : Z) (acc : list trace),
    GetTraces_loop items count limit acc =
    match decode_first (Z.to_nat (limit - count)) items with
    | Ok ts => Ok (acc ++ ts)
    | Err e => Err e
    end.
Proof.
  induction 1 as [|[k v] rest Hk _ IH]; intros count limit acc.
  - simpl. destruct (Z.to_nat (limit - count)); simpl; now rewrite List.app_nil_r.
  - simpl. destruct (count <? limit) eqn:Hc.
    + apply Z.ltb_lt in Hc.
      replace (Z.to_nat (limit - count)) with (S (Z.to_nat (limit - (count + 1)))) by lia.
      simpl in Hk. rewrite (prefix_check k Hk). simpl.
      destruct (json_Unmarshal v) as [t|e]; [|reflexivity].
      rewrite IH. destruct (decode_first _ rest); [|reflexivity].
      now rewrite <- List.app_assoc.
    + apply Z.ltb_ge in Hc.
      replace (Z.to_nat (limit - count)) with O by lia.
      simpl. now rewrite List.app_nil_r.
Qed.

Lemma GetTraces_decode_first (s : DB) (limit : Z) :
  GetTraces s limit =
  match decode_first (Z.to_nat limit) (stored_records s) with
  | Ok ts => Ok ts
  | Err e => Err (Errorf_w "failed to get traces" e)
  end.
Proof.
  unfold GetTraces, db_View. fold (stored_records s).
  rewrite (GetTraces_loop_decode_first _ (stored_records_prefix s)).
  rewrite Z.sub_0_r. now destruct (decode_first _ _).
Qed.

Lemma decode_first_length (n : nat) (items : list (bytes * bytes)) (ts : list trace) :
  decode_first n items = Ok ts -> (List.length ts <= n)%nat.
Proof.
  revert items ts. induction n as [|n IH]; intros items ts; simpl.
  - intros [= <-]. simpl. lia.
  - destruct items as [|[k v] rest]; [intros [= <-]; simpl; lia|].
    destruct (json_Unmarshal v); [|discriminate].
    destruct (decode_first n rest) as [ts'|] eqn:E; [|discriminate].
    intros [= <-]. simpl. specialize (IH _ _ E). lia.
Qed.

Lemma decode_first_all (items : list (bytes * bytes)) (ts : list trace) :
  Forall2 decodes items ts ->
  forall n, (List.length items <= n)%nat -> decode_first n items = Ok ts.
Proof.
  induction 1 as [|[k v] t rest ts' Hd _ IH]; intros n Hn.
  - now destruct n.
  - destruct n as [|n]; simpl in Hn; [lia|]. simpl.
    unfold decodes in Hd. simpl in Hd. rewrite Hd, (IH n) by lia. reflexivity.
Qed.

Lemma decode_first_corrupt (good : list (bytes * bytes)) (gts : list trace)
    (k bad : bytes) (rest : list (bytes * bytes)) (e : error) :
  Forall2 decodes good gts ->
  json_Unmarshal bad = Err e ->
  forall n,
    ((List.length good < n)%nat ->
     decode_first n (good ++ (k, bad) :: rest) =
       Err (Errorf_w "failed to unmarshal trace" e)) /\
    ((n <= List.length good)%nat ->
     decode_first n (good ++ (k, bad) :: rest) = Ok (firstn n gts)).
Proof.
  intros Hg Hbad. induction Hg as [|[k' v] t good' gts' Hd _ IH]; intros n.
  - split; intros Hn; simpl in Hn.
    + destruct n as [|n]; [lia|]. simpl. now rewrite Hbad.
    + replace n with O by lia. reflexivity.
  - unfold decodes in Hd. simpl in Hd. split; intros Hn; simpl in Hn.
    + destruct n as [|n]; [lia|]. simpl. rewrite Hd.
      destruct (IH n) as [H1 _]. rewrite H1 by lia. reflexivity.
    + destruct n as [|n]; [reflexivity|]. simpl. rewrite Hd.
      destruct (IH n) as [_ H2]. rewrite H2 by lia. reflexivity.
Qed.

(** C1 (as the code has it): a record that fails to decode aborts the
    listing.  When the records before it decode and are fewer than
    [limit], [GetTraces] returns the decoding error, wrapped, and no
    trace at all; the record goes unnoticed only when [limit] traces were
    collected before the scan reached it. *)
Theorem GetTraces_corrupt_record_aborts (s : DB) (limit : Z)
    (good : list (bytes * bytes)) (gts : list trace)
    (k bad : bytes) (rest : list (bytes * bytes)) (e : error) :
  stored_records s = good ++ (k, bad) :: rest ->
  Forall2 decodes good gts ->
  json_Unmarshal bad = Err e ->
  (Z.of_nat (List.length good) < limit ->
   GetTraces s limit =
     Err (Errorf_w "failed to get traces" (Errorf_w "failed to unmarshal trace" e))) /\
  (limit <= Z.of_nat (List.length good) ->
   GetTraces s limit = Ok (firstn (Z.to_nat limit) gts)).
Proof.
  intros Hs Hg Hbad. rewrite GetTraces_decode_first, Hs.
  destruct (decode_first_corrupt good gts k bad rest e Hg Hbad (Z.to_nat limit))
    as [H1 H2].
  split; intros Hl.
  - rewrite H1 by lia. reflexivity.
  - rewrite H2 by lia. reflexivity.
Qed.

(** C7 (as the code has it): a successful [GetTraces limit] returns at
    most [limit] traces when [limit] is not negative and none when it is;
    when every stored record decodes and [limit] is at least their
    number, it returns the decodings of all of them, in key order. *)
Theorem GetTraces_bound_and_all (s : DB) (limit : Z) :
  (forall ts, GetTraces s limit = Ok ts ->
              Z.of_nat (List.length ts) <= Z.max 0 limit) /\
  (forall ts, Forall2 decodes (stored_records s) ts ->
              Z.of_nat (List.length (stored_records s)) <= limit ->
              GetTraces s limit = Ok ts).
Proof.
  split; intros ts.
  - rewrite GetTraces_decode_first.
    destruct (decode_first _ _) as [ts'|] eqn:E; [|discriminate].
    intros [= <-]. apply decode_first_length in E. lia.
  - intros Hd Hl. rewrite GetTraces_decode_first.
    rewrite (decode_first_all _ ts Hd) by lia. reflexivity.
Qed.

End Listing.

(** ** GetStats *)

Lemma wrap_int64_range (z : Z) : int64_range (wrap_int64 z).
Proof.
  unfold int64_range, wrap_int64.
  pose proof (Z.mod_pos_bound (z + 2 ^ 63) (2 ^ 64) ltac:(lia)). lia.
Qed.

Lemma wrap_int64_id (z : Z) : int64_range z -> wrap_int64 z = z.
Proof.
  unfold int64_range, wrap_int64. intros H.
  rewrite Z.mod_small by lia. lia.
Qed.

Lemma wrap_int64_add (a b : Z) : wrap_int64 (wrap_int64 a + b) = wrap_int64 (a + b).
Proof.
  unfold wrap_int64.
  replace ((a + 2 ^ 63) mod 2 ^ 64 - 2 ^ 63 + b + 2 ^ 63)
    with ((a + 2 ^ 63) mod 2 ^ 64 + b) by lia.
  rewrite Zplus_mod_idemp_l. f_equal. f_equal. lia.
Qed.

Section Statistics.
Context {L : Libs}.

Lemma GetStats_loop_ok (items : list (bytes * bytes)) (ts : list trace) :
  Forall (fun e => String.prefix "trace:" (fst e) = true) items ->
  Forall2 decodes items ts ->
  forall c,
    int64_range (totalTraces c) -> int64_range (totalSpans c) ->
    int64_range (storageSize c) ->
    GetStats_loop items c =
    Ok {| totalTraces := wrap_int64 (totalTraces c + Z.of_nat (List.length items));
          totalSpans := wrap_int64 (totalSpans c + zsum (map counted_spans ts));
          storageSize := wrap_int64 (storageSize c + zsum (record_sizes items)) |}.
Proof.
  intros Hp Hd. revert Hp.
  induction Hd as [|[k v] t rest ts' Hd _ IH]; intros Hp c H1 H2 H3.
  - simpl. rewrite !Z.add_0_r, !wrap_int64_id by assumption. now destruct c.
  - inversion Hp as [|? ? Hk Hp']; subst. simpl in Hk.
    unfold decodes in Hd. simpl in Hd.
    cbn [GetStats_loop]. rewrite (prefix_check k Hk), Hd.
    rewrite IH; clear IH; cbn [totalTraces totalSpans storageSize];
      try apply wrap_int64_range; try assumption.
    + f_equal. f_equal.
      * rewrite wrap_int64_add. f_equal.
        cbn [List.length]. lia.
      * cbn [map zsum fold_right]. fold (zsum (map counted_spans ts')).
        unfold counted_spans at 2.
        destruct (map_lookup "spans" t) as [[]|];
          rewrite ?wrap_int64_add; try (f_equal; lia);
          rewrite <- (wrap_int64_id (totalSpans c)) at 1 by assumption;
          rewrite wrap_int64_add; f_equal; lia.
      * rewrite wrap_int64_add. f_equal. unfold record_sizes. simpl. lia.
    + destruct (map_lookup "spans" t) as [[]|];
        try assumption; apply wrap_int64_range.
Qed.

Lemma GetStats_loop_decodes (items : list (bytes * bytes)) :
  Forall (fun e => String.prefix "trace:" (fst e) = true) items ->
  forall c c', GetStats_loop items c = Ok c' ->
  exists ts, Forall2 decodes items ts.
Proof.
  induction 1 as [|[k v] rest Hk _ IH]; intros c c' H.
  - exists []. constructor.
  - simpl in Hk. cbn [GetStats_loop] in H. rewrite (prefix_check k Hk) in H.
    destruct (json_Unmarshal v) as [t|] eqn:Hv; [|discriminate].
    destruct (IH _ _ H) as [ts Hts]. exists (t :: ts). now constructor.
Qed.

(** What a successful [GetStats] returns. *)
Lemma GetStats_ok (s : DB) (ts : list trace) :
  Forall2 decodes (stored_records s) ts ->
  GetStats s =
  Ok [ ("storage_size",
        Str (format_storage_size (wrap_int64 (zsum (record_sizes (stored_records s))))));
       ("total_spans", Int (wrap_int64 (zsum (map counted_spans ts))));
       ("total_traces", Int (wrap_int64 (Z.of_nat (List.length (stored_records s))))) ].
Proof.
  intros Hd. unfold GetStats, db_View. fold (stored_records s).
  rewrite (GetStats_loop_ok _ ts (stored_records_prefix s) Hd);
    cbn [totalTraces totalSpans storageSize]; unfold int64_range; try lia.
  reflexivity.
Qed.

(** C4 (as the code has it): a successful [GetStats] returns exactly the
    three fields [storage_size], [total_spans] and [total_traces];
    [storage_size] is a string, the sum of the raw byte lengths of the
    stored records (a 64-bit sum) divided by 1024 * 1024 and printed with
    two decimals and the suffix [" MB"].  There is no field
    [storage_size_bytes]. *)
Theorem GetStats_fields (s : DB) (stats : trace) :
  GetStats s = Ok stats ->
  exists ts,
    Forall2 decodes (stored_records s) ts /\
    stats =
    [ ("storage_size",
       Str (format_storage_size (wrap_int64 (zsum (record_sizes (stored_records s))))));
      ("total_spans", Int (wrap_int64 (zsum (map counted_spans ts))));
      ("total_traces", Int (wrap_int64 (Z.of_nat (List.length (stored_records s))))) ] /\
    map_lookup "storage_size_bytes" stats = None.
Proof.
  intros H.
  assert (exists ts, Forall2 decodes (stored_records s) ts) as [ts Hts].
  { unfold GetStats, db_View in H. fold (stored_records s) in H.
    destruct (GetStats_loop _ _) as [c'|] eqn:E; [|discriminate].
    exact (GetStats_loop_decodes _ (stored_records_prefix s) _ _ E). }
  exists ts. rewrite (GetStats_ok s ts Hts) in H. injection H as <-.
  split; [assumption|]. split; reflexivity.
Qed.

End Statistics.

(** ** Writing and reading back *)

Lemma kv_get_none (key : bytes) (db : DB) :
  kv_get key db = None <-> ~ In key (map fst db).
Proof.
  unfold kv_get. induction db as [|[k v] rest IH]; simpl.
  - tauto.
  - destruct (String.eqb_spec k key) as [->|Hne]; simpl.
    + split; [discriminate|]. intros H. elim H. now left.
    + rewrite IH. tauto.
Qed.

Lemma kv_insert_perm (key val : bytes) (db : DB) :
  Permutation (kv_insert key val db) ((key, val) :: db).
Proof.
  induction db as [|[k v] rest IH]; simpl; [reflexivity|].
  destruct (String.ltb k key); [|reflexivity].
  rewrite IH. apply perm_swap.
Qed.

Lemma kv_set_perm (key val : bytes) (db : DB) :
  ~ In key (map fst db) -> Permutation (kv_set key val db) ((key, val) :: db).
Proof.
  intros H. unfold kv_set.
  rewrite (kv_delete_absent key db) by now apply kv_get_none.
  apply kv_insert_perm.
Qed.

Lemma trace_key_inj (a b : string) : trace_key a = trace_key b -> a = b.
Proof. unfold trace_key. simpl. now intros [= ->]. Qed.

Lemma trace_key_prefix (id : string) : String.prefix "trace:" (trace_key id) = true.
Proof. unfold trace_key. simpl. now destruct id. Qed.

Lemma zsum_perm (l l' : list Z) : Permutation l l' -> zsum l = zsum l'.
Proof. induction 1; simpl in *; lia. Qed.

Section WriteRead.
Context {L : Libs}.

(** After a run of successful writes under distinct fresh ids the store
    holds one record per trace, next to what it held before. *)
Lemma StoreTraces_records (ts : list trace) :
  forall s0 s,
    StoreTraces s0 ts = (s, None) ->
    NoDup (map trace_id_of ts) ->
    (forall t id, In t ts -> trace_id_of t = Some id ->
                  ~ In (trace_key id) (map fst s0)) ->
    exists entries, Forall2 written ts entries /\ Permutation s (entries ++ s0).
Proof.
  induction ts as [|t rest IH]; intros s0 s Hs Hnd Hfresh.
  - simpl in Hs. injection Hs as <-. exists []. split; [constructor|reflexivity].
  - simpl in Hs. destruct (StoreTrace s0 t) as [s1 [e|]] eqn:Ht; [discriminate|].
    destruct (StoreTrace_success _ _ _ Ht) as (id & data & Hid & Hm & ->).
    assert (Hidt : trace_id_of t = Some id) by (unfold trace_id_of; now rewrite Hid).
    inversion Hnd as [|? ? Hnotin Hnd']; subst.
    assert (Hfree : ~ In (trace_key id) (map fst s0)).
    { apply (Hfresh t id); [now left|assumption]. }
    pose proof (kv_set_perm (trace_key id) data s0 Hfree) as Hperm.
    destruct (IH _ _ Hs Hnd') as (entries & Hw & Hp).
    + intros t' id' Hin Hid' Hbad.
      apply (Permutation_in _ (Permutation_map fst Hperm)) in Hbad.
      simpl in Hbad. destruct Hbad as [Heq|Hbad].
      * apply trace_key_inj in Heq. subst id'.
        apply Hnotin. rewrite Hidt, <- Hid'. now apply in_map.
      * apply (Hfresh t' id'); [now right|assumption|assumption].
    + exists ((trace_key id, data) :: entries). split.
      * constructor; [|assumption]. now exists id.
      * rewrite Hp. rewrite Hperm. simpl.
        symmetry. apply Permutation_middle.
Qed.

(** C5: after two [StoreTrace] calls with the same id exactly one record
    is stored under that id; it is the encoding of the second trace, and
    [GetTrace] returns its decoding, whatever the first call wrote: the
    second trace itself as soon as the codec gives it back unchanged. *)
Theorem StoreTrace_last_writer_wins (s s1 s2 : DB) (t1 t2 : trace) (id : string) :
  trace_id_of t1 = Some id ->
  trace_id_of t2 = Some id ->
  StoreTrace s t1 = (s1, None) ->
  StoreTrace s1 t2 = (s2, None) ->
  kv_count (trace_key id) s2 = 1%nat /\
  (exists data2, json_Marshal t2 = Ok data2 /\
                 kv_get (trace_key id) s2 = Some data2 /\
                 GetTrace s2 id = json_Unmarshal data2) /\
  (round_trips t2 -> GetTrace s2 id = Ok t2).
Proof.
  intros Hid1 Hid2 H1 H2.
  destruct (StoreTrace_success _ _ _ H2) as (id' & data2 & Hl & Hm & ->).
  assert (id' = id) as ->.
  { unfold trace_id_of in Hid2. rewrite Hl in Hid2. now injection Hid2. }
  assert (Hget : GetTrace (kv_set (trace_key id) data2 s1) id = json_Unmarshal data2).
  { unfold GetTrace, db_View, txn_Get. fold (trace_key id). now rewrite kv_get_set. }
  split; [apply kv_count_set|]. split.
  - exists data2. split; [assumption|]. split; [apply kv_get_set|assumption].
  - intros (data & Hm' & Hu). rewrite Hm in Hm'. injection Hm' as <-.
    now rewrite Hget.
Qed.

Lemma decodes_total (items : list (bytes * bytes)) :
  Forall (fun e => exists t, decodes e t) items ->
  exists ts, Forall2 decodes items ts.
Proof.
  induction 1 as [|e rest [t Ht] _ [ts IH]].
  - exists []. constructor.
  - exists (t :: ts). now constructor.
Qed.

Lemma record_spans_decodes (items : list (bytes * bytes)) (ts : list trace) :
  Forall2 decodes items ts -> map counted_spans ts = map record_spans items.
Proof.
  induction 1 as [|e t rest ts' Hd _ IH]; simpl; [reflexivity|].
  unfold record_spans at 1. unfold decodes in Hd. now rewrite Hd, IH.
Qed.

Lemma written_spans (ts : list trace) (entries : list (bytes * bytes)) :
  Forall2 written ts entries ->
  Forall spans_survive ts ->
  Forall (fun e => exists t, decodes e t) entries /\
  Forall (fun e => String.prefix "trace:" (fst e) = true) entries /\
  map record_spans entries = map span_count ts.
Proof.
  induction 1 as [|t e rest entries' (id & Hid & Hk & Hm) _ IH]; intros Hs.
  - repeat split; constructor.
  - inversion Hs as [|? ? (data & t' & Hm' & Hu & Hc) Hs']; subst.
    rewrite Hm in Hm'. injection Hm' as <-.
    destruct (IH Hs') as (IH1 & IH2 & IH3).
    split; [|split].
    + constructor; [now exists t'|assumption].
    + constructor; [|assumption]. unfold bytes in *. rewrite Hk.
      apply trace_key_prefix.
    + simpl. unfold record_spans at 1. now rewrite Hu, Hc, IH3.
Qed.

(** C6: after storing N traces with distinct ids in a fresh store,
    [GetStats] reports [total_traces] = N and [total_spans] = the sum of
    the numbers of spans of the stored traces.  The codec is asked to keep
    the span sequence of each stored trace, and the two totals to fit a Go
    [int]. *)
Theorem GetStats_exact (ts : list trace) (s : DB) :
  StoreTraces NewBadgerStore ts = (s, None) ->
  NoDup (map trace_id_of ts) ->
  Forall spans_survive ts ->
  Z.of_nat (List.length ts) < 2 ^ 63 ->
  zsum (map span_count ts) < 2 ^ 63 ->
  exists stats,
    GetStats s = Ok stats /\
    map_lookup "total_traces" stats = Some (Int (Z.of_nat (List.length ts))) /\
    map_lookup "total_spans" stats = Some (Int (zsum (map span_count ts))).
Proof.
  intros Hs Hnd Hsurv HN Hsum.
  destruct (StoreTraces_records ts _ _ Hs Hnd) as (entries & Hw & Hp).
  { intros t id _ _ []. }
  rewrite List.app_nil_r in Hp.
  destruct (written_spans _ _ Hw Hsurv) as (Hdec & Hpre & Hspans).
  assert (Hpre' : Forall (fun e => String.prefix "trace:" (fst e) = true) s).
  { apply Forall_forall. intros e He. rewrite Forall_forall in Hpre.
    apply Hpre. now apply (Permutation_in _ Hp). }
  assert (Hrec : stored_records s = s).
  { unfold stored_records, txn_NewIterator. apply forallb_filter_id.
    apply forallb_forall. now rewrite Forall_forall in Hpre'. }
  assert (Hdec' : Forall (fun e => exists t, decodes e t) s).
  { apply Forall_forall. intros e He. rewrite Forall_forall in Hdec.
    apply Hdec. now apply (Permutation_in _ Hp). }
  destruct (decodes_total _ Hdec') as [ts' Hts'].
  rewrite <- Hrec in Hts'.
  eexists. split; [apply (GetStats_ok s ts' Hts')|].
  rewrite Hrec in *.
  assert (Hlen : List.length s = List.length ts).
  { rewrite (Permutation_length Hp). symmetry. exact (Forall2_length Hw). }
  assert (Hnn : 0 <= zsum (map span_count ts)).
  { clear. induction ts as [|t r IH]; simpl; [lia|].
    unfold span_count at 1. destruct (map_lookup "spans" t) as [[]|]; lia. }
  split; simpl.
  - rewrite Hlen, wrap_int64_id; [reflexivity|]. unfold int64_range. lia.
  - rewrite (record_spans_decodes _ _ Hts').
    rewrite (zsum_perm _ _ (Permutation_map record_spans Hp)), Hspans.
    rewrite wrap_int64_id; [reflexivity|]. unfold int64_range. lia.
Qed.

End WriteRead.

(** ** The key order of the store *)

Lemma string_ltb_trans (a b c : string) :
  String.ltb a b = true -> String.ltb b c = true -> String.ltb a c = true.
Proof.
  unfold String.ltb. intros H1 H2.
  destruct (String.compare a b) eqn:E1; try discriminate H1.
  destruct (String.compare b c) eqn:E2; try discriminate H2.
  apply (proj1 (String_as_OT.cmp_lt a b)) in E1.
  apply (proj1 (String_as_OT.cmp_lt b c)) in E2.
  pose proof (String_as_OT.lt_trans _ _ _ E1 E2) as H.
  apply (proj2 (String_as_OT.cmp_lt a c)) in H.
  unfold String_as_OT.cmp in H. now rewrite H.
Qed.

Lemma string_ltb_total (a b : string) :
  String.ltb a b = false -> a <> b -> String.ltb b a = true.
Proof.
  unfold String.ltb. intros H Hne. rewrite String.compare_antisym.
  destruct (String.compare a b) eqn:E; try discriminate H; [|reflexivity].
  apply String.compare_eq_iff in E. contradiction.
Qed.

Lemma kv_sorted_filter (f : bytes * bytes -> bool) (db : DB) :
  kv_sorted db -> kv_sorted (filter f db).
Proof.
  unfold kv_sorted. induction 1 as [|e rest Hs IH Hall]; simpl; [constructor|].
  destruct (f e); [|assumption]. constructor; [assumption|].
  rewrite Forall_forall in Hall |- *. intros x Hx. apply filter_In in Hx.
  apply Hall. tauto.
Qed.

Lemma kv_sorted_insert (key val : bytes) (db : DB) :
  kv_sorted db -> ~ In key (map fst db) -> kv_sorted (kv_insert key val db).
Proof.
  unfold kv_sorted. induction 1 as [|[k v] rest Hs IH Hall]; intros Hfree; simpl.
  - repeat constructor.
  - simpl in Hfree. destruct (String.ltb k key) eqn:Hlt.
    + constructor; [apply IH; tauto|].
      apply (Permutation_Forall (Permutation_sym (kv_insert_perm key val rest))).
      constructor; assumption.
    + assert (Hkey : String.ltb key k = true).
      { apply string_ltb_total; [assumption|]. intros ->. tauto. }
      constructor; [now constructor|]. constructor; [exact Hkey|].
      rewrite Forall_forall in Hall |- *. intros x Hx.
      exact (string_ltb_trans _ _ _ Hkey (Hall x Hx)).
Qed.

Lemma kv_sorted_set (key val : bytes) (db : DB) :
  kv_sorted db -> kv_sorted (kv_set key val db).
Proof.
  intros H. unfold kv_set. apply kv_sorted_insert.
  - now apply kv_sorted_filter.
  - apply kv_get_none, kv_get_delete.
Qed.

Section Order.
Context {L : Libs}.

(** The store keeps its records in key order, and [GetTraces] and
    [GetStats] visit them in that order. *)
Lemma StoreTrace_sorted (s s' : DB) (t : trace) (r : option error) :
  kv_sorted s -> StoreTrace s t = (s', r) -> kv_sorted s'.
Proof.
  intros Hs H. destruct r as [e|].
  - now rewrite (StoreTrace_failure _ _ _ _ H).
  - destruct (StoreTrace_success _ _ _ H) as (id & data & _ & _ & ->).
    now apply kv_sorted_set.
Qed.

End Order.

Lemma stored_records_sorted (s : DB) : kv_sorted s -> kv_sorted (stored_records s).
Proof. apply kv_sorted_filter. Qed.

(** ** Validation, lookup and limits *)

Section Claims.
Context {L : Libs}.

(** C2 (as the code has it): for every limit <= 0, [GetTraces] succeeds
    with an empty list, whatever the store holds; no validation of the
    limit takes place. *)
Theorem GetTraces_nonpositive_limit (s : DB) (limit : Z) :
  limit <= 0 -> GetTraces s limit = Ok [].
Proof.
  intros Hl. unfold GetTraces, db_View.
  destruct (txn_NewIterator "trace:" s) as [|[k v] rest]; simpl; [reflexivity|].
  destruct (0 <? limit) eqn:H; [lia|reflexivity].
Qed.

(** C9: for every id with no stored record, [GetTrace] fails with the
    error ["trace not found"]: no other error, no success. *)
Theorem GetTrace_not_found (s : DB) (id : string) :
  kv_get (trace_key id) s = None ->
  GetTrace s id = Err (Errorf "trace not found").
Proof.
  intros H. unfold GetTrace, db_View, txn_Get. fold (trace_key id).
  now rewrite H.
Qed.

(** C10: when the [trace_id] field is absent or is not a string,
    [StoreTrace] returns the error ["trace_id is required"] and the store
    is unchanged; more generally every failed [StoreTrace], whether it
    failed in validation, encoding or the put, leaves the store as it
    was. *)
Theorem StoreTrace_invalid_id_no_write (s : DB) (t : trace) :
  (map_lookup "trace_id" t = None \/
   exists v, map_lookup "trace_id" t = Some v /\ forall id, v <> Str id) ->
  StoreTrace s t = (s, Some (Errorf "trace_id is required")) /\
  forall t' s' e, StoreTrace s t' = (s', Some e) -> s' = s.
Proof.
  intros H. split.
  - apply StoreTrace_without_id. unfold trace_id_of.
    destruct H as [->|[v [-> Hv]]]; [reflexivity|].
    destruct v; try reflexivity. now elim (Hv s0).
  - intros t' s' e. apply StoreTrace_failure.
Qed.

(** C3 (as the code has it): the validation of [StoreTrace] looks at the
    presence and the type of [trace_id] only.  A trace whose id is the
    empty string is accepted: once encoded and admitted by the engine it
    is persisted under the key ["trace:"] and can be read back with
    [GetTrace ""]. *)
Theorem StoreTrace_empty_id_persists (s : DB) (t : trace) (data : bytes) :
  map_lookup "trace_id" t = Some (Str "") ->
  json_Marshal t = Ok data ->
  txn_modify_check "trace:" data = None ->
  StoreTrace s t = (kv_set "trace:" data s, None) /\
  kv_get "trace:" (kv_set "trace:" data s) = Some data /\
  GetTrace (kv_set "trace:" data s) "" = json_Unmarshal data.
Proof.
  intros Hid Hm Hc. split; [|split].
  - rewrite (StoreTrace_with_id s t "" Hid), Hm. unfold trace_key. simpl.
    now rewrite Hc.
  - apply kv_get_set.
  - unfold GetTrace, db_View, txn_Get. simpl. now rewrite kv_get_set.
Qed.

End Claims.

Lemma GetTraces_nonpositive_limit_witness :
  GetTraces (L := golibs) three_records (-1) = Ok [].
Proof. apply (GetTraces_nonpositive_limit (L := golibs) three_records (-1)). lia. Defined.

(** C2 fails on the code: a limit of 0 is answered with a success. *)
Lemma GetTraces_limit_zero_succeeds :
  GetTraces (L := golibs) three_records 0 = Ok [] /\
  GetTraces (L := golibs) NewBadgerStore (-5) = Ok [].
Proof. split; reflexivity. Qed.

Lemma GetTrace_not_found_witness :
  GetTrace (L := golibs) three_records "nonexistent" = Err (Errorf "trace not found").
Proof.
  apply (GetTrace_not_found (L := golibs) three_records "nonexistent").
  reflexivity.
Defined.

Lemma StoreTrace_invalid_id_no_write_witness :
  StoreTrace (L := golibs) three_records [("trace_id", Int 7)] =
    (three_records, Some (Errorf "trace_id is required")) /\
  forall t' s' e,
    StoreTrace (L := golibs) three_records t' = (s', Some e) -> s' = three_records.
Proof.
  apply (StoreTrace_invalid_id_no_write (L := golibs) three_records [("trace_id", Int 7)]).
  right. exists (Int 7). split; [reflexivity|]. intros id. discriminate.
Defined.

(** C3 fails on the code: a trace with an empty id is stored. *)
Lemma StoreTrace_empty_id_accepted :
  map_lookup "trace_id" trace_empty_id = Some (Str "") /\
  snd (StoreTrace (L := golibs) NewBadgerStore trace_empty_id) = None /\
  kv_count "trace:" (fst (StoreTrace (L := golibs) NewBadgerStore trace_empty_id)) = 1%nat.
Proof. repeat split; reflexivity. Qed.

Lemma StoreTrace_empty_id_persists_witness :
  exists data,
    StoreTrace (L := golibs) NewBadgerStore trace_empty_id =
      (kv_set "trace:" data NewBadgerStore, None) /\
    kv_get "trace:" (kv_set "trace:" data NewBadgerStore) = Some data /\
    GetTrace (L := golibs) (kv_set "trace:" data NewBadgerStore) "" =
      json_Unmarshal (Libs := golibs) data.
Proof.
  eexists.
  apply (StoreTrace_empty_id_persists (L := golibs) NewBadgerStore trace_empty_id);
    reflexivity.
Defined.

(** ** The statements on data *)

(** C1 fails on the code: of three stored records the middle one is
    corrupt; the two others decode, yet [GetTraces 10] returns an error
    instead of the two traces. *)
Lemma GetTraces_corrupt_record_fails :
  map fst (stored_records corrupt_store) = ["trace:a"; "trace:b"; "trace:c"] /\
  GetTrace (L := golibs) corrupt_store "a" = Ok trace_a /\
  GetTrace (L := golibs) corrupt_store "c" = Ok trace_c /\
  GetTrace (L := golibs) corrupt_store "b" = Err Json.SyntaxError /\
  GetTraces (L := golibs) corrupt_store 10 =
    Err (Errorf_w "failed to get traces"
           (Errorf_w "failed to unmarshal trace" Json.SyntaxError)).
Proof. repeat split; vm_compute; reflexivity. Qed.

Lemma GetTraces_corrupt_record_aborts_witness :
  GetTraces (L := golibs) corrupt_store 10 =
    Err (Errorf_w "failed to get traces"
           (Errorf_w "failed to unmarshal trace" Json.SyntaxError)) /\
  GetTraces (L := golibs) corrupt_store 1 = Ok [trace_a].
Proof.
  assert (Hs : stored_records corrupt_store =
               [hd ("", "") three_records] ++
               ("trace:b", "{") :: [hd ("", "") (tl (tl three_records))])
    by reflexivity.
  assert (Hg : Forall2 (decodes (L := golibs)) [hd ("", "") three_records] [trace_a])
    by (repeat constructor).
  assert (Hbad : json_Unmarshal (Libs := golibs) "{" = Err Json.SyntaxError)
    by reflexivity.
  split.
  - apply (proj1 (GetTraces_corrupt_record_aborts (L := golibs)
                    corrupt_store 10 _ _ _ _ _ _ Hs Hg Hbad)).
    simpl. lia.
  - apply (proj2 (GetTraces_corrupt_record_aborts (L := golibs)
                    corrupt_store 1 _ _ _ _ _ _ Hs Hg Hbad)).
    simpl. lia.
Defined.

(** C7 fails on the code: with a limit above the number of stored records
    the listing of a store holding a corrupt record is an error, not the
    stored traces; and a negative limit is answered with a success. *)
Lemma GetTraces_not_all_stored :
  List.length (stored_records corrupt_store) = 3%nat /\
  GetTraces (L := golibs) corrupt_store 3 =
    Err (Errorf_w "failed to get traces"
           (Errorf_w "failed to unmarshal trace" Json.SyntaxError)) /\
  GetTraces (L := golibs) three_records (-1) = Ok [].
Proof. repeat split; vm_compute; reflexivity. Qed.

Lemma GetTraces_bound_and_all_witness :
  (forall ts, GetTraces (L := golibs) three_records 2 = Ok ts ->
              Z.of_nat (List.length ts) <= Z.max 0 2) /\
  GetTraces (L := golibs) three_records 5 = Ok [trace_a; trace_b; trace_c].
Proof.
  split.
  - exact (proj1 (GetTraces_bound_and_all (L := golibs) three_records 2)).
  - apply (proj2 (GetTraces_bound_and_all (L := golibs) three_records 5)).
    + repeat constructor.
    + vm_compute. discriminate.
Defined.

(** C4 fails on the code: the third field is [storage_size], a formatted
    string, and [storage_size_bytes] does not exist. *)
Lemma GetStats_has_no_byte_count :
  GetStats (L := golibs) three_records =
    Ok [ ("storage_size", Str "0.00 MB"); ("total_spans", Int 3);
         ("total_traces", Int 3) ] /\
  zsum (record_sizes (stored_records three_records)) = 118 /\
  (forall stats, GetStats (L := golibs) three_records = Ok stats ->
                 map_lookup "storage_size_bytes" stats = None).
Proof.
  split; [reflexivity|]. split; [reflexivity|].
  intros stats [= <-]. reflexivity.
Qed.

Lemma GetStats_fields_witness :
  exists ts,
    Forall2 (decodes (L := golibs)) (stored_records three_records) ts /\
    [ ("storage_size", Str "0.00 MB"); ("total_spans", Int 3); ("total_traces", Int 3) ] =
    [ ("storage_size",
       Str (format_storage_size
              (wrap_int64 (zsum (record_sizes (stored_records three_records))))));
      ("total_spans", Int (wrap_int64 (zsum (map counted_spans ts))));
      ("total_traces",
       Int (wrap_int64 (Z.of_nat (List.length (stored_records three_records))))) ] /\
    map_lookup "storage_size_bytes"
      [ ("storage_size", Str "0.00 MB"); ("total_spans", Int 3);
        ("total_traces", Int 3) ] = None.
Proof.
  apply (GetStats_fields (L := golibs) three_records). reflexivity.
Defined.

Lemma StoreTrace_last_writer_wins_witness :
  let s1 := fst (StoreTrace (L := golibs) NewBadgerStore trace_t1_two) in
  let s2 := fst (StoreTrace (L := golibs) s1 trace_t1_one) in
  kv_count (trace_key "t1") s2 = 1%nat /\
  GetTrace (L := golibs) s2 "t1" = Ok trace_t1_one.
Proof.
  intros s1 s2.
  destruct (StoreTrace_last_writer_wins (L := golibs)
              NewBadgerStore s1 s2 trace_t1_two trace_t1_one "t1"
              eq_refl eq_refl eq_refl eq_refl) as (H1 & _ & H3).
  split; [exact H1|]. apply H3. eexists. split; reflexivity.
Defined.

Lemma GetStats_exact_witness :
  exists stats,
    GetStats (L := golibs)
      (fst (StoreTraces (L := golibs) NewBadgerStore [trace_a; trace_b; trace_d])) =
      Ok stats /\
    map_lookup "total_traces" stats = Some (Int 3) /\
    map_lookup "total_spans" stats = Some (Int 5).
Proof.
  apply (GetStats_exact (L := golibs) [trace_a; trace_b; trace_d]).
  - reflexivity.
  - repeat constructor; simpl; intuition discriminate.
  - repeat constructor; eexists; eexists; repeat split; reflexivity.
  - simpl. lia.
  - vm_compute. reflexivity.
Defined.
(** ** The codec model reads back what it writes *)

Module JsonFacts.
Import Json.

Lemma string_append_assoc (a b c : string) : ((a ++ b) ++ c = a ++ (b ++ c))%string.
Proof. induction a as [|x a IH]; simpl; [reflexivity|]. now rewrite IH. Qed.

Lemma string_append_nil_r (a : string) : (a ++ "")%string = a.
Proof. induction a as [|x a IH]; simpl; [reflexivity|]. now rewrite IH. Qed.

Lemma string_length_append (a b : string) :
  String.length (a ++ b) = (String.length a + String.length b)%nat.
Proof. induction a as [|x a IH]; simpl; [reflexivity|]. now rewrite IH. Qed.

Lemma parse_string_escape_byte (c : ascii) (tail : string) :
  ascii_byte c = true ->
  parse_string (escape_byte c ++ tail) = cons_byte c (parse_string tail).
Proof.
  destruct c as [b0 b1 b2 b3 b4 b5 b6 b7].
  destruct b7; [destruct b0, b1, b2, b3, b4, b5, b6; discriminate|].
  intros _.
  destruct b0, b1, b2, b3, b4, b5, b6; reflexivity.
Qed.

Lemma parse_string_escape (s rest : string) :
  ascii_only s = true ->
  parse_string (escape s ++ String dquote rest) = Ok (s, rest).
Proof.
  induction s as [|c s IH]; simpl; intros H.
  - reflexivity.
  - apply andb_prop in H. destruct H as [Hc Hs].
    rewrite string_append_assoc, (parse_string_escape_byte c _ Hc), (IH Hs).
    reflexivity.
Qed.

Lemma scan_digits_end (s : string) :
  number_end s = true -> scan_digits s = (Decimal.Nil, s).
Proof.
  destruct s as [|c r]; simpl; [reflexivity|].
  destruct (digit_of c); [discriminate|reflexivity].
Qed.

Lemma scan_digits_uint (d : uint) (rest : string) :
  number_end rest = true ->
  scan_digits (NilEmpty.string_of_uint d ++ rest) = (d, rest).
Proof.
  intros H. induction d; simpl; rewrite ?IHd; try reflexivity.
  now apply scan_digits_end.
Qed.


Lemma unorm_fixed_no_leading_zero (d' : uint) :
  unorm (D0 d') = D0 d' -> d' = Decimal.Nil.
Proof.
  intros Hn. rewrite unorm_D0 in Hn.
  destruct d' as [| | | | | | | | | |]; try reflexivity;
    match type of Hn with unorm ?u = _ =>
      assert (Hne : u <> Decimal.Nil) by discriminate;
      pose proof (nb_digits_unorm u Hne) as Hle; rewrite Hn in Hle;
      unfold nb_digits in Hle; cbn in Hle; lia
    end.
Qed.

Lemma to_uint_unorm (p : positive) : unorm (Pos.to_uint p) = Pos.to_uint p.
Proof.
  pose proof (DecimalZ.to_of (Z.to_int (Z.pos p))) as H.
  rewrite DecimalZ.of_to in H. simpl in H. now injection H.
Qed.

Lemma of_uint_to_uint (p : positive) : Z.of_uint (Pos.to_uint p) = Z.pos p.
Proof. exact (DecimalZ.of_to (Z.pos p)). Qed.


Lemma parse_digits_positive (negative : bool) (p : positive) (rest : string) :
  number_end rest = true ->
  Z.pos p < 2 ^ 53 ->
  parse_digits negative (NilEmpty.string_of_uint (Pos.to_uint p) ++ rest) =
  Ok (JNumber (if negative then Z.neg p else Z.pos p), rest).
Proof.
  intros Hend Hp. unfold parse_digits.
  rewrite (scan_digits_uint _ _ Hend).
  pose proof (to_uint_unorm p) as Hn.
  pose proof (Unsigned.to_uint_nonnil p) as Hnil.
  pose proof (of_uint_to_uint p) as Hv.
  assert (Hfe : starts_fraction_or_exponent rest = false).
  { destruct rest as [|c r]; [reflexivity|]. simpl in Hend |- *.
    destruct (digit_of c); [discriminate Hend|].
    apply negb_true_iff in Hend. exact Hend. }
  assert (Hlt : (Z.pos p <? 2 ^ 53) = true) by (apply Z.ltb_lt; exact Hp).
  clear Hp.
  destruct (Pos.to_uint p) as [|d'| | | | | | | | |].
  1: elim Hnil; reflexivity.
  1: apply unorm_fixed_no_leading_zero in Hn; subst d'; discriminate Hv.
  all: rewrite Hfe, Hv, Hlt; cbn [Z.eqb]; rewrite andb_false_r;
       destruct negative; reflexivity.
Qed.

Lemma parse_number_render (z : Z) (rest : string) :
  number_end rest = true ->
  Z.abs z < 2 ^ 53 ->
  parse_number (render_int z ++ rest) = Ok (JNumber z, rest).
Proof.
  intros Hend Hz. unfold render_int. destruct z as [|p|p].
  - clear Hz.
    change (NilEmpty.string_of_int (Z.to_int 0) ++ rest)%string with (String "0" rest).
    unfold parse_number. change (Ascii.eqb "0" "-") with false. cbv iota.
    unfold parse_digits.
    change (scan_digits (String "0" rest))
      with (let (ds, rest') := scan_digits rest in (D0 ds, rest')).
    rewrite (scan_digits_end _ Hend).
    destruct rest as [|c r]; [reflexivity|]. simpl in Hend |- *.
    destruct (digit_of c); [discriminate Hend|]. apply negb_true_iff in Hend.
    rewrite Hend. reflexivity.
  - pose proof (Unsigned.to_uint_nonnil p) as Hnil.
    rewrite <- (parse_digits_positive false p rest Hend) by exact Hz.
    cbn [Z.to_int NilEmpty.string_of_int]. clear Hz.
    destruct (Pos.to_uint p); [elim Hnil; reflexivity|..]; reflexivity.
  - cbn [Z.to_int NilEmpty.string_of_int append]. unfold parse_number.
    cbn [Ascii.eqb Bool.eqb].
    apply (parse_digits_positive true p rest Hend). exact Hz.
Qed.

Lemma render_int_start (z : Z) (rest : string) :
  starts_with number_start (render_int z ++ rest) = true.
Proof.
  unfold render_int. destruct z as [|p|p]; try reflexivity.
  cbn [Z.to_int NilEmpty.string_of_int].
  pose proof (Unsigned.to_uint_nonnil p) as Hnil.
  destruct (Pos.to_uint p); [elim Hnil; reflexivity|..]; reflexivity.
Qed.

Lemma render_start (j : json) (rest : string) :
  starts_with value_start (render j ++ rest) = true.
Proof.
  destruct j as [|[]|z|s|l|m]; try reflexivity.
  pose proof (render_int_start z rest) as H. cbn [render].
  destruct (render_int z ++ rest)%string; [discriminate H|].
  cbn [starts_with] in *. unfold value_start. now rewrite H.
Qed.

Lemma parse_value_unfold (d : nat) (s : string) :
  parse_value d s =
  parse_value_at match d with O => None | S d' => Some (parse_value d') end s.
Proof. destruct d; reflexivity. Qed.

Lemma parse_value_at_number nested (s : string) :
  starts_with number_start s = true ->
  parse_value_at nested s = parse_number s.
Proof.
  destruct s as [|c r]; [discriminate|]. cbn [starts_with].
  destruct c as [b0 b1 b2 b3 b4 b5 b6 b7].
  destruct b0, b1, b2, b3, b4, b5, b6, b7; intros H; try discriminate H; reflexivity.
Qed.

Lemma next_is_miss (c : ascii) (s : string) :
  starts_with value_start s = true ->
  value_start c = false -> next_is c s = None.
Proof.
  destruct s as [|c' r]; [discriminate|]. cbn [starts_with]. intros H Hc.
  unfold next_is. 
  assert (Hs : is_space c' = false).
  { destruct c' as [b0 b1 b2 b3 b4 b5 b6 b7].
    destruct b0, b1, b2, b3, b4, b5, b6, b7; try discriminate H; reflexivity. }
  cbn [skip_ws]. rewrite Hs.
  destruct (Ascii.eqb_spec c' c) as [->|]; [|reflexivity]. congruence.
Qed.

Lemma number_end_after (c : ascii) (r : string) :
  value_start c = false -> is_space c = false ->
  Ascii.eqb c "." = false -> Ascii.eqb c "e" = false -> Ascii.eqb c "E" = false ->
  number_end (String c r) = true.
Proof.
  intros H _ H1 H2 H3. unfold number_end, starts_fraction_or_exponent.
  rewrite H1, H2, H3. unfold value_start, number_start in H.
  destruct (digit_of c); [discriminate H|reflexivity].
Qed.

Lemma render_more_length {A : Type} (item : A -> string) (l : list A) (tail : string) :
  (List.length l <= String.length (render_more item l ++ tail))%nat.
Proof.
  induction l as [|x l IH]; [simpl; lia|].
  cbn [render_more append List.length String.length].
  rewrite string_append_assoc, string_length_append. lia.
Qed.

Lemma number_end_more {A : Type} (item : A -> string) (l : list A) (c : ascii) (rest : string) :
  number_end (String c rest) = true ->
  number_end (render_more item l ++ String c rest) = true.
Proof. destruct l; [trivial|reflexivity]. Qed.

Lemma quote_append (s tail : string) :
  (quote s ++ tail)%string = String dquote (escape s ++ String dquote tail).
Proof. unfold quote. cbn [append]. now rewrite string_append_assoc. Qed.

Lemma next_is_dquote (s : string) : next_is dquote (String dquote s) = Some s.
Proof. reflexivity. Qed.

Lemma parse_value_at_string nested (s : string) :
  parse_value_at nested (String dquote s) =
  match parse_string s with
  | Ok (str, r1) => Ok (JString str, r1)
  | Err e => Err e
  end.
Proof. reflexivity. Qed.

Section Elements.
Variable pv : string -> result (json * string).

Lemma parse_elements_render (xs : list json) (rest : string) :
  Forall (reads_back pv) xs ->
  forall n, (List.length xs < n)%nat ->
  parse_elements pv n (render_more render xs ++ String "]" rest) = Ok (xs, rest).
Proof.
  induction 1 as [|y xs Hy _ IH]; intros n Hn.
  - destruct n; [inversion Hn|]. reflexivity.
  - destruct n; [inversion Hn|]. cbn [List.length] in Hn.
    cbn [render_more append parse_elements].
    change (next_is "," (String "," ?s)) with (Some s). cbv iota beta.
    rewrite string_append_assoc, Hy by (now apply number_end_more).
    rewrite IH by lia. reflexivity.
Qed.

Lemma parse_member_render (k : string) (x : json) (rest : string) :
  ascii_only k = true -> reads_back pv x -> number_end rest = true ->
  parse_member pv (render_member render (k, x) ++ rest) = Ok ((k, x), rest).
Proof.
  intros Hk Hx Hrest. unfold render_member, parse_member. cbn [fst snd].
  rewrite string_append_assoc, quote_append, next_is_dquote.
  rewrite (parse_string_escape k _ Hk). cbn [append].
  change (next_is ":" (String ":" ?s)) with (Some s).
  cbv iota beta. now rewrite Hx.
Qed.

Lemma parse_members_render (ms : list (string * json)) (rest : string) :
  Forall (fun kx => ascii_only (fst kx) = true /\ reads_back pv (snd kx)) ms ->
  forall n, (List.length ms < n)%nat ->
  parse_members pv n (render_more (render_member render) ms ++ String "}" rest) =
  Ok (ms, rest).
Proof.
  induction 1 as [|[k x] ms [Hk Hx] _ IH]; intros n Hn.
  - destruct n; [inversion Hn|]. reflexivity.
  - destruct n; [inversion Hn|]. cbn [List.length] in Hn.
    cbn [render_more append parse_members].
    change (next_is "," (String "," ?s)) with (Some s). cbv iota beta.
    rewrite string_append_assoc.
    rewrite parse_member_render; try assumption; [|now apply number_end_more].
    rewrite IH by lia. reflexivity.
Qed.

End Elements.

Lemma parse_value_render (j : json) :
  forall d rest, jfits j d = true -> number_end rest = true ->
                 parse_value d (render j ++ rest) = Ok (j, rest).
Proof.
  induction j as [|b|z|s|l IH|m IH] using json_ind'; intros d rest Hfit Hrest;
    rewrite parse_value_unfold.
  - reflexivity.
  - destruct b; reflexivity.
  - cbn [render jfits] in *.
    rewrite (parse_value_at_number _ _ (render_int_start z rest)).
    apply parse_number_render; [assumption|]. now apply Z.ltb_lt.
  - cbn [render jfits] in *.
    rewrite quote_append, parse_value_at_string, (parse_string_escape s _ Hfit).
    reflexivity.
  - destruct d as [|d]; [discriminate Hfit|]. cbn [jfits] in Hfit.
    assert (Hall : Forall (reads_back (parse_value d)) l).
    { rewrite forallb_forall in Hfit. rewrite Forall_forall in IH |- *.
      intros x Hx rest' Hr. apply IH; auto. }
    clear IH Hfit. destruct Hall as [|x xs Hx Hxs].
    + reflexivity.
    + cbn [render render_list append].
      rewrite !string_append_assoc. cbn [append].
      change (parse_value_at ?n (String "[" ?r)) with
        (match n with
         | None => Err MaxDepthError
         | Some parse_element =>
             match next_is "]" r with
             | Some r1 => Ok (JArray [], r1)
             | None =>
                 match parse_element r with
                 | Err e => Err e
                 | Ok (x, r1) =>
                     match parse_elements parse_element (String.length r1) r1 with
                     | Err e => Err e
                     | Ok (xs, r2) => Ok (JArray (x :: xs), r2)
                     end
                 end
             end
         end).
      cbv iota beta.
      rewrite (next_is_miss "]") by (apply render_start || reflexivity).
      rewrite Hx by (now apply number_end_more).
      rewrite (parse_elements_render _ xs rest Hxs); [reflexivity|].
      pose proof (render_more_length render xs (String "]" rest)). 
      rewrite string_length_append in *. cbn [String.length] in *. 
      pose proof (render_more_length render xs ""). rewrite string_append_nil_r in *. lia.
  - destruct d as [|d]; [discriminate Hfit|]. cbn [jfits] in Hfit.
    assert (Hall : Forall (fun kx => ascii_only (fst kx) = true /\
                                     reads_back (parse_value d) (snd kx)) m).
    { rewrite forallb_forall in Hfit. rewrite Forall_forall in IH |- *.
      intros kx Hkx. specialize (Hfit kx Hkx). apply andb_prop in Hfit.
      split; [tauto|]. intros rest' Hr. apply IH; tauto. }
    clear IH Hfit. destruct Hall as [|[k x] ms [Hk Hx] Hms].
    + reflexivity.
    + cbn [render render_list append].
      rewrite !string_append_assoc. cbn [append].
      change (parse_value_at ?n (String "{" ?r)) with
        (match n with
         | None => Err MaxDepthError
         | Some parse_element =>
             match next_is "}" r with
             | Some r1 => Ok (JObject [], r1)
             | None =>
                 match parse_member parse_element r with
                 | Err e => Err e
                 | Ok (kx, r1) =>
                     match parse_members parse_element (String.length r1) r1 with
                     | Err e => Err e
                     | Ok (ms, r2) => Ok (JObject (kx :: ms), r2)
                     end
                 end
             end
         end).
      cbv iota beta.
      rewrite <- string_append_assoc.
      rewrite (next_is_miss "}"); [| |reflexivity].
      2:{ unfold render_member. cbn [fst]. rewrite !string_append_assoc, quote_append. reflexivity. }
      rewrite string_append_assoc.
      rewrite parse_member_render; try assumption; [|now apply number_end_more].
      rewrite (parse_members_render _ ms rest Hms); [reflexivity|].
      pose proof (render_more_length (render_member render) ms (String "}" rest)).
      rewrite string_length_append in *. cbn [String.length] in *.
      pose proof (render_more_length (render_member render) ms ""). rewrite string_append_nil_r in *. lia.
Qed.

Lemma sort_first_sorted {A : Type} (m : list (string * A)) :
  keys_sorted m = true -> sort_first m = m.
Proof.
  induction m as [|[k v] r IH]; [reflexivity|].
  intros H. cbn [sort_first fold_right fst snd]. fold (sort_first r).
  destruct r as [|[k' v'] r']; [reflexivity|].
  cbn [keys_sorted] in H. apply andb_prop in H. destruct H as [Hlt Hr].
  rewrite (IH Hr). cbn [assoc_set]. unfold String.ltb in Hlt.
  destruct (String.compare k k'); try discriminate Hlt. reflexivity.
Qed.

Lemma sort_last_sorted {A : Type} (m : list (string * A)) :
  keys_sorted m = true -> sort_last m = m.
Proof.
  induction m as [|[k v] r IH]; [reflexivity|].
  intros H. cbn [sort_last fold_right fst snd]. fold (sort_last r).
  destruct r as [|[k' v'] r']; [reflexivity|].
  cbn [keys_sorted] in H. apply andb_prop in H. destruct H as [Hlt Hr].
  rewrite (IH Hr). cbn [assoc_add]. unfold String.ltb in Hlt.
  destruct (String.compare k k'); try discriminate Hlt. reflexivity.
Qed.

Lemma keys_sorted_ext {A B : Type} (m : list (string * A)) (m' : list (string * B)) :
  map fst m = map fst m' -> keys_sorted m = keys_sorted m'.
Proof.
  revert m'. induction m as [|[k v] r IH]; intros [|[k' v'] r'] H; try discriminate H;
    [reflexivity|].
  cbn [map fst] in H. injection H as -> Hr. cbn [keys_sorted].
  rewrite (IH _ Hr). destruct r as [|[a ?] ?], r' as [|[b ?] ?]; try discriminate Hr;
    [reflexivity|].
  cbn [map fst] in Hr. now injection Hr as -> _.
Qed.

Lemma collect_Forall2 {A B : Type} (f : A -> result B) (R : A -> B -> Prop) (l : list A) :
  Forall (fun x => exists y, f x = Ok y /\ R x y) l ->
  exists ys, collect f l = Ok ys /\ Forall2 R l ys.
Proof.
  induction 1 as [|x r (y & Hy & HR) _ (ys & Hys & HF)].
  - exists []. split; [reflexivity|constructor].
  - exists (y :: ys). cbn [collect]. rewrite Hy, Hys. split; [reflexivity|now constructor].
Qed.

Lemma to_json_native (v : value) :
  forall d, native_at v d = true ->
            exists j, to_json v = Ok j /\ json_of_native d v j.
Proof.
  induction v as [|b|n|f|s|l IH|l|m IH] using value_ind'; intros d Hn;
    cbn [native_at] in Hn; try discriminate Hn.
  - exists JNull. now repeat split.
  - exists (JBool b). now repeat split.
  - destruct f as [z| |]; try discriminate Hn.
    exists (JNumber z). now repeat split.
  - exists (JString s). cbn [to_json]. unfold to_json_string. rewrite Hn.
    now repeat split.
  - destruct d as [|d]; [discriminate Hn|].
    destruct (collect_Forall2 to_json (json_of_native d) l) as (js & Hjs & HF).
    { rewrite forallb_forall in Hn. rewrite Forall_forall in IH |- *.
      intros x Hx. apply IH; auto. }
    exists (JArray js). cbn [to_json]. rewrite Hjs. split; [reflexivity|].
    split; cbn [of_json jfits].
    + f_equal. clear -HF. induction HF as [|x j l js [Hx _] _ IH]; [reflexivity|].
      cbn [map]. now rewrite Hx, IH.
    + clear -HF. induction HF as [|x j l js [_ Hx] _ IH]; [reflexivity|].
      cbn [forallb]. now rewrite Hx, IH.
  - destruct d as [|d]; [discriminate Hn|].
    apply andb_prop in Hn. destruct Hn as [Hsorted Hn].
    destruct (collect_Forall2 (to_json_member to_json)
                (fun kx kj => fst kj = fst kx /\ ascii_only (fst kx) = true /\
                              json_of_native d (snd kx) (snd kj)) m)
      as (ms & Hms & HF).
    { rewrite forallb_forall in Hn. rewrite Forall_forall in IH |- *.
      intros kx Hkx. specialize (Hn kx Hkx). apply andb_prop in Hn.
      destruct Hn as [Hk Hx]. destruct (IH kx Hkx d Hx) as (j & Hj & Hnat).
      exists (fst kx, j). unfold to_json_member, to_json_string.
      rewrite Hk, Hj. split; [reflexivity|]. split; [reflexivity|].
      split; [reflexivity|exact Hnat]. }
    assert (Hkeys : map fst ms = map fst m).
    { clear -HF. induction HF as [|kx kj l js [Hk _] _ IH]; [reflexivity|].
      cbn [map]. now rewrite Hk, IH. }
    assert (Hsorted' : keys_sorted ms = true).
    { now rewrite (keys_sorted_ext ms m Hkeys). }
    exists (JObject ms). cbn [to_json]. unfold to_json_map.
    rewrite Hms, (sort_first_sorted ms Hsorted'). split; [reflexivity|].
    split; cbn [of_json jfits].
    + assert (Hmap : map (fun kx => (fst kx, of_json (snd kx))) ms = m).
      { clear -HF. induction HF as [|[k x] [k' j] l js (Hk & _ & Hx & _) _ IH];
          [reflexivity|].
        cbn [map fst snd] in *. now rewrite Hk, Hx, IH. }
      rewrite Hmap. now rewrite (sort_last_sorted m Hsorted).
    + clear -HF. induction HF as [|[k x] [k' j] l js (Hk & Ha & _ & Hx) _ IH];
        [reflexivity|].
      cbn [forallb fst snd] in *. subst k'. now rewrite Ha, Hx, IH.
Qed.

Lemma Marshal_Unmarshal_native (t : trace) :
  json_native t = true ->
  exists data, Marshal t = Ok data /\ Unmarshal data = Ok t.
Proof.
  intros H. destruct (to_json_native (Map t) _ H) as (j & Hj & Hof & Hfit).
  exists (render j). unfold Marshal, Unmarshal, parse. rewrite Hj.
  split; [reflexivity|].
  rewrite <- (string_append_nil_r (render j)).
  rewrite (parse_value_render j _ "" Hfit eq_refl).
  cbn [skip_ws]. now rewrite Hof.
Qed.

End JsonFacts.

(** ** The round trip of the codec *)

(** C8 (as the code has it): the codec gives back exactly the traces made
    of the values it produces itself, [nil], [bool], [float64], [string],
    [[]interface{}] and [map[string]interface{}].  Within the modelled
    fragment (ASCII strings, integral numbers of magnitude below [2^53],
    nesting within the scanner's limit) every such trace is encoded, and
    decoding the encoding yields the trace again; so what [StoreTrace]
    wrote for such a trace, [GetTrace] reads back equal. *)
Theorem codec_round_trip_native (t : trace) :
  Json.json_native t = true ->
  round_trips (L := golibs) t /\
  forall s s' id,
    trace_id_of t = Some id ->
    StoreTrace (L := golibs) s t = (s', None) ->
    GetTrace (L := golibs) s' id = Ok t.
Proof.
  intros H.
  destruct (JsonFacts.Marshal_Unmarshal_native t H) as (data & Hm & Hu).
  split.
  - exists data. split; assumption.
  - intros s s' id Hid Hs.
    destruct (StoreTrace_success (L := golibs) _ _ _ Hs) as (id' & data' & Hl & Hm' & ->).
    assert (id' = id) as ->.
    { unfold trace_id_of in Hid. rewrite Hl in Hid. now injection Hid. }
    assert (data' = data) as ->.
    { change (Json.Marshal t = Ok data') in Hm'. rewrite Hm in Hm'.
      now injection Hm'. }
    unfold GetTrace, db_View, txn_Get. fold (trace_key id).
    rewrite kv_get_set. exact Hu.
Qed.

Lemma codec_round_trip_native_witness :
  round_trips (L := golibs) trace_b /\
  GetTrace (L := golibs) (fst (StoreTrace (L := golibs) three_records trace_b)) "b" =
    Ok trace_b.
Proof.
  destruct (codec_round_trip_native trace_b) as [H1 H2].
  - vm_compute. reflexivity.
  - split; [exact H1|]. apply (H2 three_records); reflexivity.
Defined.

(** C8 fails on the code: the trace of the repository's own test is
    accepted by [StoreTrace], but its typed span slice comes back as a
    [[]interface{}]; a Go [int] comes back as a [float64]. *)
Lemma codec_round_trip_fails_on_typed_values :
  snd (StoreTrace (L := golibs) NewBadgerStore test_trace) = None /\
  GetTrace (L := golibs) (fst (StoreTrace (L := golibs) NewBadgerStore test_trace))
    "test-trace-1" =
    Ok [ ("name", Str "test-trace");
         ("spans", Slice []);
         ("start_time", Str "2024-09-20T10:00:00Z");
         ("status", Str "ok");
         ("trace_id", Str "test-trace-1") ] /\
  ~ round_trips (L := golibs) test_trace /\
  ~ round_trips (L := golibs) trace_with_int.
Proof.
  split; [reflexivity|]. split; [reflexivity|].
  split; intros (data & Hm & Hu); vm_compute in Hm; injection Hm as <-;
    vm_compute in Hu; discriminate Hu.
Qed.

(** The hypothesis of C6 on the codec holds for every JSON-native trace:
    its span sequence is a [[]interface{}] and comes back unchanged. *)
Lemma map_lookup_In (key : string) (m : trace) (v : value) :
  map_lookup key m = Some v -> In (key, v) m.
Proof.
  induction m as [|[k x] rest IH]; simpl; [discriminate|].
  destruct (String.eqb_spec key k) as [->|_].
  - intros [= ->]. now left.
  - intros H. right. now apply IH.
Qed.

Lemma native_spans_survive (t : trace) :
  Json.json_native t = true -> spans_survive (L := golibs) t.
Proof.
  intros H.
  destruct (JsonFacts.Marshal_Unmarshal_native t H) as (data & Hm & Hu).
  exists data, t. split; [exact Hm|]. split; [exact Hu|].
  unfold counted_spans, span_count.
  destruct (map_lookup "spans" t) as [v|] eqn:Hl; [|reflexivity].
  destruct v; try reflexivity.
  apply map_lookup_In in Hl.
  unfold Json.json_native in H. destruct Json.maxNestingDepth; [discriminate H|].
  cbn [Json.native_at] in H. apply andb_prop in H. destruct H as [_ H].
  rewrite forallb_forall in H. specialize (H _ Hl).
  apply andb_prop in H. destruct H as [_ H]. discriminate H.
Qed.

(** * Further properties of the store *)

Lemma kv_get_insert_other (key k val : bytes) (db : DB) :
  key <> k -> kv_get key (kv_insert k val db) = kv_get key db.
Proof.
  intros Hne. unfold kv_get. induction db as [|[k' v'] rest IH]; simpl.
  - destruct (String.eqb_spec k key); [congruence|reflexivity].
  - destruct (String.ltb k' k); simpl.
    + destruct (String.eqb k' key); [reflexivity|exact IH].
    + destruct (String.eqb_spec k key); [congruence|reflexivity].
Qed.

Lemma kv_get_delete_other (key k : bytes) (db : DB) :
  key <> k -> kv_get key (kv_delete k db) = kv_get key db.
Proof.
  intros Hne. unfold kv_get, kv_delete. induction db as [|[k' v'] rest IH]; simpl;
    [reflexivity|].
  destruct (String.eqb_spec k' k) as [->|Hk]; simpl.
  - destruct (String.eqb_spec k key); [congruence|exact IH].
  - destruct (String.eqb k' key); [reflexivity|exact IH].
Qed.

Lemma kv_get_set_other (key k val : bytes) (db : DB) :
  key <> k -> kv_get key (kv_set k val db) = kv_get key db.
Proof.
  intros Hne. unfold kv_set.
  now rewrite kv_get_insert_other, kv_get_delete_other.
Qed.

Section MoreStore.
Context {L : Libs}.

(** X1: a [StoreTrace], successful or not, leaves every other id as it
    was: [GetTrace] on a different id answers the same before and after. *)
Theorem StoreTrace_other_ids_untouched (s s' : DB) (t : trace)
    (id id' : string) (r : option error) :
  trace_id_of t = Some id ->
  id' <> id ->
  StoreTrace s t = (s', r) ->
  GetTrace s' id' = GetTrace s id'.
Proof.
  intros Hid Hne H. destruct r as [e|].
  - now rewrite (StoreTrace_failure _ _ _ _ H).
  - destruct (StoreTrace_success _ _ _ H) as (id0 & data & Hl & _ & ->).
    assert (id0 = id) as ->.
    { unfold trace_id_of in Hid. rewrite Hl in Hid. now injection Hid. }
    unfold GetTrace, db_View, txn_Get. fold (trace_key id').
    rewrite kv_get_set_other; [reflexivity|].
    intros Heq. apply trace_key_inj in Heq. contradiction.
Qed.

Lemma GetStats_loop_corrupt (good : list (bytes * bytes)) (gts : list trace)
    (k bad : bytes) (rest : list (bytes * bytes)) (e : error) :
  Forall (fun e => String.prefix "trace:" (fst e) = true) (good ++ (k, bad) :: rest) ->
  Forall2 decodes good gts ->
  json_Unmarshal bad = Err e ->
  forall c, GetStats_loop (good ++ (k, bad) :: rest) c = Err e.
Proof.
  intros Hp Hg Hbad. induction Hg as [|[k' v] t good' gts' Hd _ IH]; intros c.
  - inversion Hp as [|? ? Hk _]; subst. simpl in Hk.
    cbn [List.app GetStats_loop]. now rewrite (prefix_check k Hk), Hbad.
  - inversion Hp as [|? ? Hk Hp']; subst. simpl in Hk.
    unfold decodes in Hd. simpl in Hd.
    cbn [List.app GetStats_loop]. rewrite (prefix_check k' Hk), Hd.
    apply IH. exact Hp'.
Qed.

(** X2: one record that fails to decode makes [GetStats] fail as a
    whole.  The error is the decoding error wrapped once, as ["failed to
    get stats: ..."]; no count is returned for the records that do
    decode. *)
Theorem GetStats_corrupt_record_aborts (s : DB)
    (good : list (bytes * bytes)) (gts : list trace)
    (k bad : bytes) (rest : list (bytes * bytes)) (e : error) :
  stored_records s = good ++ (k, bad) :: rest ->
  Forall2 decodes good gts ->
  json_Unmarshal bad = Err e ->
  GetStats s = Err (Errorf_w "failed to get stats" e).
Proof.
  intros Hs Hg Hbad. unfold GetStats, db_View. fold (stored_records s).
  pose proof (stored_records_prefix s) as Hp. rewrite Hs in Hp |- *.
  now rewrite (GetStats_loop_corrupt good gts k bad rest e Hp Hg Hbad).
Qed.

Lemma decode_first_smaller (n2 : nat) :
  forall (items : list (bytes * bytes)) (ts : list trace) (n1 : nat),
    decode_first n2 items = Ok ts -> (n1 <= n2)%nat ->
    decode_first n1 items = Ok (firstn n1 ts).
Proof.
  induction n2 as [|n2 IH]; intros items ts n1 H Hle.
  - replace n1 with O by lia. simpl in H. injection H as <-. reflexivity.
  - destruct n1 as [|n1]; [reflexivity|].
    destruct items as [|[k v] rest]; simpl in H |- *.
    + injection H as <-. reflexivity.
    + destruct (json_Unmarshal v) as [t|]; [|discriminate H].
      destruct (decode_first n2 rest) as [ts'|] eqn:E; [|discriminate H].
      injection H as <-. rewrite (IH rest ts' n1 E) by lia. reflexivity.
Qed.

(** X3: listing with a smaller limit gives a prefix of the listing with a
    larger one: when [GetTraces] succeeds for [limit2], it succeeds for
    every [limit1 <= limit2] and returns the first [limit1] of the same
    traces. *)
Theorem GetTraces_smaller_limit_prefix (s : DB) (limit1 limit2 : Z) (ts : list trace) :
  GetTraces s limit2 = Ok ts ->
  limit1 <= limit2 ->
  GetTraces s limit1 = Ok (firstn (Z.to_nat limit1) ts).
Proof.
  intros H Hle. rewrite GetTraces_decode_first in H |- *.
  destruct (decode_first (Z.to_nat limit2) _) as [ts'|] eqn:E; [|discriminate H].
  injection H as <-.
  rewrite (decode_first_smaller _ _ _ (Z.to_nat limit1) E) by lia. reflexivity.
Qed.

(** X4: the statistics agree with the listing.  When [GetStats]
    succeeds, [GetTraces] succeeds for every limit, and for a limit that
    covers the store [total_traces] is the number of traces listed and
    [total_spans] the number of spans counted in them. *)
Theorem GetStats_agrees_with_GetTraces (s : DB) (stats : trace) (limit : Z) :
  GetStats s = Ok stats ->
  Z.of_nat (List.length (stored_records s)) <= limit ->
  limit < 2 ^ 63 ->
  exists ts,
    GetTraces s limit = Ok ts /\
    map_lookup "total_traces" stats = Some (Int (Z.of_nat (List.length ts))) /\
    map_lookup "total_spans" stats =
      Some (Int (wrap_int64 (zsum (map counted_spans ts)))).
Proof.
  intros H Hlen Hlim.
  assert (exists ts, Forall2 decodes (stored_records s) ts) as [ts Hd].
  { unfold GetStats, db_View in H. fold (stored_records s) in H.
    destruct (GetStats_loop _ _) as [c'|] eqn:E; [|discriminate H].
    exact (GetStats_loop_decodes _ (stored_records_prefix s) _ _ E). }
  rewrite (GetStats_ok s ts Hd) in H. injection H as <-.
  exists ts. split.
  - rewrite GetTraces_decode_first, (decode_first_all _ ts Hd) by lia. reflexivity.
  - rewrite (Forall2_length Hd) in *. split; [|reflexivity].
    cbn. rewrite wrap_int64_id; [reflexivity|]. unfold int64_range. lia.
Qed.

Lemma kv_sorted_NoDup (db : DB) : kv_sorted db -> NoDup (map fst db).
Proof.
  unfold kv_sorted. induction 1 as [|e rest Hs IH Hall]; simpl; constructor;
    [|exact IH].
  intros Hin. apply in_map_iff in Hin. destruct Hin as (x & Hx & Hin).
  rewrite Forall_forall in Hall. specialize (Hall x Hin). unfold key_lt in Hall.
  rewrite Hx in Hall. unfold String.ltb in Hall.
  replace (String.compare (fst e) (fst e)) with Eq in Hall; [discriminate Hall|].
  symmetry. destruct (String.compare (fst e) (fst e)) eqn:E; [reflexivity| |].
  - pose proof (String.compare_antisym (fst e) (fst e)) as Ha.
    rewrite E in Ha. discriminate Ha.
  - pose proof (String.compare_antisym (fst e) (fst e)) as Ha.
    rewrite E in Ha. discriminate Ha.
Qed.

(** X5: the key order is an invariant of [StoreTrace].  In a store whose
    records are in strictly increasing key order, as a fresh one is, they
    still are after any [StoreTrace]; so the scan of [GetTraces] and
    [GetStats] meets the records in key order and no key twice. *)
Theorem StoreTrace_keeps_key_order (s s' : DB) (t : trace) (r : option error) :
  kv_sorted s ->
  StoreTrace s t = (s', r) ->
  kv_sorted s' /\
  kv_sorted (stored_records s') /\
  NoDup (map fst (stored_records s')).
Proof.
  intros Hs H.
  assert (Hs' : kv_sorted s').
  { destruct r as [e|].
    - now rewrite (StoreTrace_failure _ _ _ _ H).
    - destruct (StoreTrace_success _ _ _ H) as (id & data & _ & _ & ->).
      now apply kv_sorted_set. }
  split; [exact Hs'|]. split.
  - now apply stored_records_sorted.
  - now apply kv_sorted_NoDup, stored_records_sorted.
Qed.

End MoreStore.

Lemma filter_kv_insert_out (p : bytes -> bool) (key val : bytes) (db : DB) :
  p key = false ->
  filter (fun e => p (fst e)) (kv_insert key val db) = filter (fun e => p (fst e)) db.
Proof.
  intros Hp. induction db as [|[k v] rest IH]; simpl.
  - now rewrite Hp.
  - destruct (String.ltb k key); simpl.
    + rewrite IH. reflexivity.
    + now rewrite Hp.
Qed.

Lemma filter_kv_delete_out (p : bytes -> bool) (key : bytes) (db : DB) :
  p key = false ->
  filter (fun e => p (fst e)) (kv_delete key db) = filter (fun e => p (fst e)) db.
Proof.
  intros Hp. unfold kv_delete. induction db as [|[k v] rest IH]; simpl; [reflexivity|].
  destruct (String.eqb_spec k key) as [->|Hk]; simpl.
  - now rewrite Hp.
  - now rewrite IH.
Qed.

Lemma stored_records_foreign_write (key val : bytes) (s : DB) :
  String.prefix "trace:" key = false ->
  stored_records (kv_set key val s) = stored_records s.
Proof.
  intros Hp. unfold stored_records, txn_NewIterator, kv_set.
  rewrite (filter_kv_insert_out (String.prefix "trace:") key val _ Hp).
  apply (filter_kv_delete_out (String.prefix "trace:") key s Hp).
Qed.

Section Namespace.
Context {L : Libs}.

(** X6: the reads see the trace namespace only.  An entry written to the
    database under a key without the prefix ["trace:"] changes neither
    the listing nor the statistics. *)
Theorem reads_ignore_foreign_keys (s : DB) (key val : bytes) (limit : Z) :
  String.prefix "trace:" key = false ->
  GetTraces (kv_set key val s) limit = GetTraces s limit /\
  GetStats (kv_set key val s) = GetStats s.
Proof.
  intros Hp. unfold GetTraces, GetStats, db_View.
  fold (stored_records (kv_set key val s)). fold (stored_records s).
  now rewrite (stored_records_foreign_write key val s Hp).
Qed.

Lemma decode_first_nil (n : nat) (items : list (bytes * bytes)) :
  decode_first n items = Ok [] <-> n = O \/ items = [].
Proof.
  split.
  - destruct n as [|n]; [now left|]. destruct items as [|[k v] rest]; [now right|].
    simpl. destruct (json_Unmarshal v); [|discriminate].
    destruct (decode_first n rest); discriminate.
  - intros [->| ->]; [reflexivity|]. now destruct n.
Qed.

(** X7: an empty listing hides nothing.  [GetTraces] returns an empty
    list exactly when the limit is not positive or no record is stored:
    with a positive limit and a stored record it returns at least one
    trace or an error. *)
Theorem GetTraces_empty_iff (s : DB) (limit : Z) :
  GetTraces s limit = Ok [] <-> limit <= 0 \/ stored_records s = [].
Proof.
  rewrite GetTraces_decode_first.
  destruct (decode_first (Z.to_nat limit) (stored_records s)) as [ts|e] eqn:E.
  - split.
    + intros [= ->]. apply decode_first_nil in E. destruct E as [E|E]; [left; lia|now right].
    + intros H. f_equal.
      assert (Hn : Z.to_nat limit = O \/ stored_records s = []) by (destruct H; [left; lia|now right]).
      apply decode_first_nil in Hn. rewrite Hn in E. now injection E.
  - split; [discriminate|].
    intros H.
    assert (Hn : Z.to_nat limit = O \/ stored_records s = []) by (destruct H; [left; lia|now right]).
    apply decode_first_nil in Hn. rewrite Hn in E. discriminate E.
Qed.

End Namespace.

(** ** The printed storage size *)

Lemma float64_of_int64_exact (n : Z) :
  0 <= n < 2 ^ 53 -> float64_of_int64 n = n.
Proof.
  intros Hn. unfold float64_of_int64.
  assert (Hlog : Z.log2 (Z.abs n) < 53).
  { rewrite Z.abs_eq by lia. destruct (Z.eq_dec n 0) as [->|Hne]; [reflexivity|].
    apply Z.log2_lt_pow2; lia. }
  destruct (Z.log2 (Z.abs n) + 1 - 53 <=? 0) eqn:E; [reflexivity|].
  apply Z.leb_gt in E. lia.
Qed.

Lemma format_storage_size_small (n : Z) :
  0 <= n <= 5242 -> format_storage_size n = "0.00 MB".
Proof.
  intros Hn. unfold format_storage_size.
  rewrite float64_of_int64_exact by lia.
  assert (Hc : round_half_even (Z.abs n * 100) (1024 * 1024) = 0).
  { unfold round_half_even. rewrite Z.abs_eq by lia.
    rewrite Z.div_small, Z.mod_small by lia.
    destruct (1024 * 1024 <? 2 * (n * 100)) eqn:E1; [apply Z.ltb_lt in E1; lia|].
    destruct (2 * (n * 100) =? 1024 * 1024) eqn:E2; [apply Z.eqb_eq in E2; lia|].
    reflexivity. }
  rewrite Hc. destruct (n <? 0) eqn:E; [apply Z.ltb_lt in E; lia|]. reflexivity.
Qed.

Lemma record_sizes_nonneg (items : list (bytes * bytes)) : 0 <= zsum (record_sizes items).
Proof.
  induction items as [|[k v] rest IH]; simpl; [lia|]. unfold len_bytes. simpl. lia.
Qed.

Section SmallStores.
Context {L : Libs}.

(** X8: the printed size hides small stores: whenever the stored records
    add up to 5242 bytes or fewer, not only when the store is empty,
    [GetStats] reports the [storage_size] ["0.00 MB"]. *)
Theorem GetStats_small_store_prints_zero (s : DB) (stats : trace) :
  GetStats s = Ok stats ->
  zsum (record_sizes (stored_records s)) <= 5242 ->
  map_lookup "storage_size" stats = Some (Str "0.00 MB").
Proof.
  intros H Hsmall.
  assert (exists ts, Forall2 decodes (stored_records s) ts) as [ts Hd].
  { unfold GetStats, db_View in H. fold (stored_records s) in H.
    destruct (GetStats_loop _ _) as [c'|] eqn:E; [|discriminate H].
    exact (GetStats_loop_decodes _ (stored_records_prefix s) _ _ E). }
  rewrite (GetStats_ok s ts Hd) in H. injection H as <-.
  pose proof (record_sizes_nonneg (stored_records s)) as Hnn.
  cbn [map_lookup String.eqb Ascii.eqb Bool.eqb].
  rewrite wrap_int64_id by (unfold int64_range; lia).
  now rewrite format_storage_size_small by lia.
Qed.

End SmallStores.

(** X9: whole mebibytes are printed exactly: a total of [k * 1024 * 1024]
    bytes, as far as [float64] holds it exactly, is printed as the
    decimal digits of [k] followed by [".00 MB"]. *)
Theorem format_storage_size_whole (k : Z) :
  0 <= k < 2 ^ 33 ->
  format_storage_size (k * (1024 * 1024)) = (decimal k ++ ".00 MB")%string.
Proof.
  intros Hk. unfold format_storage_size.
  rewrite float64_of_int64_exact by lia.
  assert (Hc : round_half_even (Z.abs (k * (1024 * 1024)) * 100) (1024 * 1024) = k * 100).
  { unfold round_half_even. rewrite Z.abs_eq by lia.
    replace (k * (1024 * 1024) * 100) with (k * 100 * (1024 * 1024)) by lia.
    rewrite Z.div_mul, Z.mod_mul by lia.
    reflexivity. }
  rewrite Hc. rewrite Z.div_mul by lia.
  replace (k * 100 mod 100) with 0 by (symmetry; apply Z.mod_mul; lia).
  replace (k * 100 mod 10) with 0
    by (symmetry; replace (k * 100) with (k * 10 * 10) by lia; apply Z.mod_mul; lia).
  destruct (k * (1024 * 1024) <? 0) eqn:E; [apply Z.ltb_lt in E; lia|].
  reflexivity.
Qed.

(** * Properties of the HTTP handlers *)

Section HandlerFacts.
Context {L : Libs} {G : Gin}.

(** X10: [handleGetTrace] answers a record that is stored but does not
    decode exactly as it answers a missing id: 404 with ["trace not
    found"]; the decoding error is not reported. *)
Theorem handleGetTrace_hides_decoding_error (s : DB) (id : string)
    (val : bytes) (e : error) :
  kv_get (trace_key id) s = Some val ->
  json_Unmarshal val = Err e ->
  handleGetTrace s id =
    {| StatusCode := StatusNotFound; Body := error_body "trace not found" |} /\
  handleGetTrace s id = handleGetTrace NewBadgerStore id.
Proof.
  intros Hget Hbad.
  assert (H : GetTrace s id = Err e).
  { unfold GetTrace, db_View, txn_Get. fold (trace_key id). now rewrite Hget. }
  unfold handleGetTrace. rewrite H. split; reflexivity.
Qed.

(** X11: [handleStoreTrace] changes the store only together with a 200.
    A 200 means the bound trace was encoded and written under the key of
    its id; with any other status, 400 for a body that does not bind and
    500 for a trace the store rejects, the store is as before. *)
Theorem handleStoreTrace_writes_only_on_200 (s s' : DB) (body : bytes) (r : Response) :
  handleStoreTrace s body = (s', r) ->
  (StatusCode r = StatusOK /\
   exists t id data,
     ShouldBindJSON body = Ok t /\ trace_id_of t = Some id /\
     json_Marshal t = Ok data /\ s' = kv_set (trace_key id) data s) \/
  ((StatusCode r = StatusBadRequest \/ StatusCode r = StatusInternalServerError) /\
   s' = s).
Proof.
  unfold handleStoreTrace. destruct (ShouldBindJSON body) as [t|e] eqn:Hb.
  - destruct (StoreTrace s t) as [s1 [e|]] eqn:Hs; intros [= <- <-].
    + right. split; [now right|]. exact (StoreTrace_failure _ _ _ _ Hs).
    + left. split; [reflexivity|].
      destruct (StoreTrace_success _ _ _ Hs) as (id & data & Hl & Hm & ->).
      exists t, id, data. repeat split; try assumption.
      unfold trace_id_of. now rewrite Hl.
  - intros [= <- <-]. right. split; [now left|reflexivity].
Qed.

(** X12: a request whose body binds to a trace without a string
    [trace_id] is answered 500, not 400, with the message ["trace_id is
    required"], and nothing is written. *)
Theorem handleStoreTrace_missing_id_is_500 (s : DB) (body : bytes) (t : trace) :
  ShouldBindJSON body = Ok t ->
  trace_id_of t = None ->
  handleStoreTrace s body =
    (s, {| StatusCode := StatusInternalServerError;
           Body := error_body "trace_id is required" |}).
Proof.
  intros Hb Hid. unfold handleStoreTrace.
  now rewrite Hb, (StoreTrace_without_id s t Hid).
Qed.

(** X13: the list endpoint is capped at 100 traces: when every stored
    record decodes it answers 200 with the first 100 of the stored
    traces, all of them when there are no more than 100. *)
Theorem handleGetTraces_first_100 (s : DB) (ts : list trace) :
  Forall2 decodes (stored_records s) ts ->
  handleGetTraces s = {| StatusCode := StatusOK; Body := MapSlice (firstn 100 ts) |}.
Proof.
  intros Hd. unfold handleGetTraces. rewrite GetTraces_decode_first.
  pose proof (decode_first_all _ ts Hd (Nat.max 100 (List.length (stored_records s)))
                ltac:(lia)) as Hall.
  rewrite (decode_first_smaller _ _ _ (Z.to_nat 100) Hall) by lia.
  reflexivity.
Qed.

(** X14: what a 200 of [handleStoreTrace] stored, [handleGetTrace] serves:
    after a successful POST of a trace that the codec gives back
    unchanged, a GET of its id answers 200 with that trace. *)
Theorem handleStoreTrace_then_handleGetTrace (s s' : DB) (body : bytes)
    (r : Response) (t : trace) (id : string) :
  handleStoreTrace s body = (s', r) ->
  StatusCode r = StatusOK ->
  ShouldBindJSON body = Ok t ->
  trace_id_of t = Some id ->
  round_trips t ->
  handleGetTrace s' id = {| StatusCode := StatusOK; Body := Map t |}.
Proof.
  intros H Hr Hb Hid (data & Hm & Hu).
  unfold handleStoreTrace in H. rewrite Hb in H.
  destruct (StoreTrace s t) as [s1 [e|]] eqn:Hs; injection H as <- <-;
    [discriminate Hr|].
  destruct (StoreTrace_success _ _ _ Hs) as (id0 & data0 & Hl & Hm0 & ->).
  assert (id0 = id) as ->.
  { unfold trace_id_of in Hid. rewrite Hl in Hid. now injection Hid. }
  rewrite Hm in Hm0. injection Hm0 as <-.
  unfold handleGetTrace, GetTrace, db_View, txn_Get. fold (trace_key id).
  now rewrite kv_get_set, Hu.
Qed.

(** X15: the two read endpoints can disagree on one store.  When a
    record that does not decode lies behind at least 100 records that do,
    the list endpoint answers 200 and the statistics endpoint 500. *)
Theorem list_ok_while_stats_fail (s : DB)
    (good : list (bytes * bytes)) (gts : list trace)
    (k bad : bytes) (rest : list (bytes * bytes)) (e : error) :
  stored_records s = good ++ (k, bad) :: rest ->
  Forall2 decodes good gts ->
  json_Unmarshal bad = Err e ->
  (100 <= List.length good)%nat ->
  handleGetTraces s = {| StatusCode := StatusOK; Body := MapSlice (firstn 100 gts) |} /\
  handleGetStats s =
    {| StatusCode := StatusInternalServerError;
       Body := error_body ("failed to get stats: " ++ Error e)%string |}.
Proof.
  intros Hs Hg Hbad Hlen. split.
  - unfold handleGetTraces. rewrite GetTraces_decode_first, Hs.
    destruct (decode_first_corrupt good gts k bad rest e Hg Hbad (Z.to_nat 100))
      as [_ H2].
    rewrite H2 by lia. reflexivity.
  - unfold handleGetStats, GetStats, db_View. fold (stored_records s).
    pose proof (stored_records_prefix s) as Hp. rewrite Hs in Hp |- *.
    now rewrite (GetStats_loop_corrupt good gts k bad rest e Hp Hg Hbad).
Qed.

End HandlerFacts.

(** * The mocked listing *)


Section MockFacts.
Variable start_time : Z -> string.



End MockFacts.

(** * What the codec returns for every modelled trace *)

Module NormalForm.
Import Json.

Lemma map_fst_normalize (m : list (string * value)) :
  map fst (map normalize_member m) = map fst m.
Proof. induction m as [|[k x] r IH]; simpl; [reflexivity|]. now rewrite IH. Qed.

(** The entries of one map. *)
Lemma members_modelled (d : nat) (m : list (string * value)) :
  Forall (fun kx => forall d, modelled_at (snd kx) d = true ->
                    exists j, to_json (snd kx) = Ok j /\
                              json_of_modelled d (snd kx) j) m ->
  keys_sorted m = true ->
  forallb (fun kx => ascii_only (fst kx) && modelled_at (snd kx) d) m = true ->
  exists ms,
    to_json_map to_json m = Ok (JObject ms) /\
    of_json (JObject ms) = Map (map normalize_member m) /\
    jfits (JObject ms) (S d) = true.
Proof.
  intros IH Hsorted Hn.
  destruct (JsonFacts.collect_Forall2 (to_json_member to_json)
              (fun kx kj => fst kj = fst kx /\ ascii_only (fst kx) = true /\
                            json_of_modelled d (snd kx) (snd kj)) m)
    as (ms & Hms & HF).
  { rewrite forallb_forall in Hn. rewrite Forall_forall in IH |- *.
    intros kx Hkx. specialize (Hn kx Hkx). apply andb_prop in Hn.
    destruct Hn as [Hk Hx]. destruct (IH kx Hkx d Hx) as (j & Hj & Hnat).
    exists (fst kx, j). unfold to_json_member, to_json_string.
    rewrite Hk, Hj. split; [reflexivity|]. split; [reflexivity|].
    split; [reflexivity|exact Hnat]. }
  assert (Hkeys : map fst ms = map fst m).
  { clear -HF. induction HF as [|kx kj l js [Hk _] _ IH]; [reflexivity|].
    cbn [map]. now rewrite Hk, IH. }
  assert (Hsorted' : keys_sorted ms = true).
  { now rewrite (JsonFacts.keys_sorted_ext ms m Hkeys). }
  exists ms. unfold to_json_map.
  rewrite Hms, (JsonFacts.sort_first_sorted ms Hsorted'). split; [reflexivity|].
  split; cbn [of_json jfits].
  - assert (Hmap : map (fun kx => (fst kx, of_json (snd kx))) ms = map normalize_member m).
    { clear -HF. induction HF as [|[k x] [k' j] l js (Hk & _ & Hx & _) _ IH];
        [reflexivity|].
      cbn [map fst snd] in *. unfold normalize_member at 1. cbn [fst snd].
      now rewrite Hk, Hx, IH. }
    rewrite Hmap. f_equal. apply JsonFacts.sort_last_sorted.
    rewrite (JsonFacts.keys_sorted_ext _ m (map_fst_normalize m)). exact Hsorted.
  - clear -HF. induction HF as [|[k x] [k' j] l js (Hk & Ha & _ & Hx) _ IH];
      [reflexivity|].
    cbn [forallb fst snd] in *. subst k'. now rewrite Ha, Hx, IH.
Qed.

Lemma to_json_modelled (v : value) :
  forall d, modelled_at v d = true ->
            exists j, to_json v = Ok j /\ json_of_modelled d v j.
Proof.
  induction v as [|b|n|f|s|l IH|l IH|m IH] using value_ind_full; intros d Hn;
    cbn [modelled_at] in Hn; cbv beta in Hn; try discriminate Hn.
  - exists JNull. now repeat split.
  - exists (JBool b). now repeat split.
  - exists (JNumber n). split; [reflexivity|]. split; [reflexivity|exact Hn].
  - destruct f as [z| |]; try discriminate Hn.
    exists (JNumber z). split; [reflexivity|]. split; [reflexivity|exact Hn].
  - exists (JString s). cbn [to_json]. unfold to_json_string. rewrite Hn.
    now repeat split.
  - destruct d as [|d]; [discriminate Hn|].
    destruct (JsonFacts.collect_Forall2 to_json (json_of_modelled d) l)
      as (js & Hjs & HF).
    { rewrite forallb_forall in Hn. rewrite Forall_forall in IH |- *.
      intros x Hx. apply IH; auto. }
    exists (JArray js). cbn [to_json]. rewrite Hjs. split; [reflexivity|].
    split; cbn [of_json jfits normalize].
    + f_equal. clear -HF. induction HF as [|x j l js [Hx _] _ IH]; [reflexivity|].
      cbn [map]. now rewrite Hx, IH.
    + clear -HF. induction HF as [|x j l js [_ Hx] _ IH]; [reflexivity|].
      cbn [forallb]. now rewrite Hx, IH.
  - destruct d as [|[|d]]; [discriminate Hn| |].
    + destruct l; [|discriminate Hn]. exists (JArray []). now repeat split.
    + destruct (JsonFacts.collect_Forall2 (to_json_map to_json)
                  (fun m j => of_json j = Map (map normalize_member m) /\
                              jfits j (S d) = true) l)
        as (js & Hjs & HF).
      { rewrite forallb_forall in Hn. rewrite Forall_forall in IH |- *.
        intros m Hm. specialize (Hn m Hm). apply andb_prop in Hn.
        destruct Hn as [Hs Hall].
        destruct (members_modelled d m (IH m Hm) Hs Hall) as (ms & H1 & H2 & H3).
        exists (JObject ms). now repeat split. }
      exists (JArray js). cbn [to_json]. rewrite Hjs. split; [reflexivity|].
      split; cbn [of_json jfits normalize].
      * f_equal. clear -HF. induction HF as [|x j l js [Hx _] _ IH]; [reflexivity|].
        cbn [map]. now rewrite Hx, IH.
      * clear -HF. induction HF as [|x j l js [_ Hx] _ IH]; [reflexivity|].
        cbn [forallb]. now rewrite Hx, IH.
  - destruct d as [|d]; [discriminate Hn|].
    apply andb_prop in Hn. destruct Hn as [Hs Hall].
    destruct (members_modelled d m IH Hs Hall) as (ms & H1 & H2 & H3).
    exists (JObject ms). cbn [to_json]. split; [exact H1|]. split; [exact H2|exact H3].
Qed.

Lemma Marshal_Unmarshal_modelled (t : trace) :
  modelled t = true ->
  exists data, Marshal t = Ok data /\ Unmarshal data = Ok (normalize_trace t).
Proof.
  intros H. destruct (to_json_modelled (Map t) _ H) as (j & Hj & Hof & Hfit).
  exists (render j). unfold Marshal, Unmarshal, parse. rewrite Hj.
  split; [reflexivity|].
  rewrite <- (JsonFacts.string_append_nil_r (render j)).
  rewrite (JsonFacts.parse_value_render j _ "" Hfit eq_refl).
  cbn [skip_ws]. rewrite Hof. reflexivity.
Qed.

Lemma map_lookup_normalize (key : string) (t : trace) :
  map_lookup key (normalize_trace t) =
  match map_lookup key t with
  | Some v => Some (normalize v)
  | None => None
  end.
Proof.
  induction t as [|[k x] r IH]; simpl; [reflexivity|].
  destruct (String.eqb key k); [reflexivity|exact IH].
Qed.

End NormalForm.

(** X17: what comes back from the store is the normal form of what went
    in.  For every trace of the modelled fragment, typed slices and Go
    integers included, a [GetTrace] after a successful [StoreTrace]
    returns the trace with every number as a [float64] and every typed
    slice as a [[]interface{}]; the trace id and the number of spans are
    those of the stored trace. *)
Theorem StoreTrace_GetTrace_normal_form (s s' : DB) (t : trace) (id : string) :
  modelled t = true ->
  trace_id_of t = Some id ->
  StoreTrace (L := golibs) s t = (s', None) ->
  GetTrace (L := golibs) s' id = Ok (normalize_trace t) /\
  trace_id_of (normalize_trace t) = Some id /\
  counted_spans (normalize_trace t) = span_count t.
Proof.
  intros Hmod Hid Hs.
  destruct (NormalForm.Marshal_Unmarshal_modelled t Hmod) as (data & Hm & Hu).
  destruct (StoreTrace_success (L := golibs) _ _ _ Hs) as (id' & data' & Hl & Hm' & ->).
  assert (id' = id) as ->.
  { unfold trace_id_of in Hid. rewrite Hl in Hid. now injection Hid. }
  assert (data' = data) as ->.
  { change (Json.Marshal t = Ok data') in Hm'. rewrite Hm in Hm'. now injection Hm'. }
  split; [|split].
  - unfold GetTrace, db_View, txn_Get. fold (trace_key id).
    rewrite kv_get_set. exact Hu.
  - unfold trace_id_of. rewrite NormalForm.map_lookup_normalize, Hl. reflexivity.
  - unfold counted_spans, span_count. rewrite NormalForm.map_lookup_normalize.
    destruct (map_lookup "spans" t) as [[]|]; cbn [normalize]; try reflexivity;
      now rewrite length_map.
Qed.

(** * Values the encoder refuses *)

Module Refused.
Import Json.

Lemma collect_fails {A B : Type} (f : A -> result B) (l : list A) :
  Exists (fun x => exists e, f x = Err e) l -> exists e, collect f l = Err e.
Proof.
  induction 1 as [x r [e He]|x r _ [e IH]]; cbn [collect].
  - rewrite He. now exists e.
  - destruct (f x) as [y|e']; [|now exists e']. rewrite IH. now exists e.
Qed.

Lemma to_json_map_fails (m : list (string * value)) :
  Exists (fun kx => exists e, to_json (snd kx) = Err e) m ->
  exists e, to_json_map to_json m = Err e.
Proof.
  intros H. unfold to_json_map.
  destruct (collect_fails (to_json_member to_json) m) as [e He].
  { apply Exists_exists in H. destruct H as (kx & Hin & e & He).
    apply Exists_exists. exists kx. split; [exact Hin|].
    unfold to_json_member. destruct (to_json_string (fst kx)) as [k|e'];
      [|now exists e']. rewrite He. now exists e. }
  rewrite He. now exists e.
Qed.

Lemma existsb_Exists_IH {A : Type} (p : A -> bool) (Q : A -> Prop) (l : list A) :
  Forall (fun x => p x = true -> Q x) l -> existsb p l = true -> Exists Q l.
Proof.
  induction 1 as [|x r Hx _ IH]; cbn [existsb]; [discriminate|].
  intros H. apply orb_prop in H. destruct H as [H|H].
  - left. auto.
  - right. auto.
Qed.

Lemma to_json_nonfinite (v : value) :
  has_nonfinite v = true -> exists e, to_json v = Err e.
Proof.
  induction v as [|b|n|f|s|l IH|l IH|m IH] using value_ind_full;
    cbn [has_nonfinite]; intros H; try discriminate H.
  - destruct f; [discriminate H| |]; now exists UnsupportedValueError.
  - cbn [to_json].
    destruct (collect_fails to_json l) as [e He];
      [exact (existsb_Exists_IH _ _ l IH H)|].
    rewrite He. now exists e.
  - cbn [to_json].
    destruct (collect_fails (to_json_map to_json) l) as [e He].
    { apply (existsb_Exists_IH _ _ l) with (2 := H).
      rewrite Forall_forall in IH |- *. intros m Hm Hex.
      apply to_json_map_fails. exact (existsb_Exists_IH _ _ m (IH m Hm) Hex). }
    rewrite He. now exists e.
  - cbn [to_json]. apply to_json_map_fails.
    exact (existsb_Exists_IH _ _ m IH H).
Qed.

End Refused.

(** X18: a trace holding a NaN or an infinity, at any depth, is refused:
    [StoreTrace] returns the encoder's error wrapped as ["failed to
    marshal trace: ..."] and writes nothing. *)
Theorem StoreTrace_refuses_nonfinite (s : DB) (t : trace) (id : string) :
  trace_id_of t = Some id ->
  has_nonfinite (Map t) = true ->
  exists e, StoreTrace (L := golibs) s t =
            (s, Some (Errorf_w "failed to marshal trace" e)).
Proof.
  intros Hid Hnf. destruct (Refused.to_json_nonfinite (Map t) Hnf) as [e He].
  exists e. unfold trace_id_of in Hid.
  destruct (map_lookup "trace_id" t) as [[]|] eqn:Hl; try discriminate Hid.
  rewrite (StoreTrace_with_id (L := golibs) s t _ Hl).
  change (json_Marshal (Libs := golibs) t) with (Json.Marshal t).
  unfold Json.Marshal. now rewrite He.
Qed.

(** * Normal forms are stable *)

Lemma normalize_native (v : value) :
  forall d, modelled_at v d = true -> Json.native_at (normalize v) d = true.
Proof.
  assert (Hmem : forall (d : nat) (m : list (string * value)),
            Forall (fun kx => forall d, modelled_at (snd kx) d = true ->
                              Json.native_at (normalize (snd kx)) d = true) m ->
            Json.keys_sorted m && forallb (fun kx => Json.ascii_only (fst kx) &&
                                                 modelled_at (snd kx) d) m = true ->
            Json.native_at (Map (map (fun kx => (fst kx, normalize (snd kx))) m)) (S d) = true).
  { intros d m IH H. apply andb_prop in H. destruct H as [Hs Hall].
    cbn [Json.native_at]. apply andb_true_intro. split.
    - rewrite (JsonFacts.keys_sorted_ext _ m); [exact Hs|].
      apply NormalForm.map_fst_normalize.
    - rewrite forallb_forall in Hall |- *. rewrite Forall_forall in IH.
      intros kx' Hin. apply in_map_iff in Hin. destruct Hin as (kx & <- & Hin).
      specialize (Hall kx Hin). apply andb_prop in Hall. destruct Hall as [Ha Hm].
      cbn [fst snd]. rewrite Ha. cbn [andb]. now apply IH. }
  induction v as [|b|n|f|s|l IH|l IH|m IH] using value_ind_full; intros d Hn;
    cbn [modelled_at] in Hn; cbv beta in Hn; cbn [normalize Json.native_at];
    try exact Hn.
  - destruct d as [|d]; [discriminate Hn|].
    rewrite forallb_forall in Hn |- *. rewrite Forall_forall in IH.
    intros x' Hin. apply in_map_iff in Hin. destruct Hin as (x & <- & Hin). auto.
  - destruct d as [|[|d]]; [discriminate Hn| |].
    + destruct l; [reflexivity|discriminate Hn].
    + rewrite forallb_forall in Hn |- *. rewrite Forall_forall in IH.
      intros x' Hin. apply in_map_iff in Hin. destruct Hin as (m & <- & Hin).
      apply Hmem; auto.
  - destruct d as [|d]; [discriminate Hn|]. now apply Hmem.
Qed.

(** X19: what the store returns can be stored again unchanged.  The
    normal form of a modelled trace is made of the values decoding
    produces, so the codec gives it back as it is, and normalising it a
    second time changes nothing. *)
Theorem normal_form_round_trips (t : trace) :
  modelled t = true ->
  Json.json_native (normalize_trace t) = true /\
  round_trips (L := golibs) (normalize_trace t).
Proof.
  intros H.
  assert (Hn : Json.json_native (normalize_trace t) = true).
  { exact (normalize_native (Map t) _ H). }
  split; [exact Hn|]. exact (JsonFacts.Marshal_Unmarshal_native _ Hn).
Qed.

(** * The order of writes *)

Lemma key_lt_irrefl (a : bytes * bytes) : ~ key_lt a a.
Proof.
  unfold key_lt, String.ltb. intros H.
  pose proof (String.compare_antisym (fst a) (fst a)) as Ha.
  destruct (String.compare (fst a) (fst a)); try discriminate H. discriminate Ha.
Qed.

Lemma key_lt_trans (a b c : bytes * bytes) : key_lt a b -> key_lt b c -> key_lt a c.
Proof. unfold key_lt. apply string_ltb_trans. Qed.

(** Two lists in key order with the same entries are the same list. *)
Lemma kv_sorted_perm_eq (l : DB) :
  forall l', kv_sorted l -> kv_sorted l' -> Permutation l l' -> l = l'.
Proof.
  unfold kv_sorted. induction l as [|a r IH]; intros l' Hs Hs' Hp.
  - apply Permutation_nil in Hp. now subst.
  - destruct l' as [|b r']; [apply Permutation_sym, Permutation_nil in Hp; discriminate Hp|].
    inversion Hs as [|? ? Hr Ha]; subst. inversion Hs' as [|? ? Hr' Hb]; subst.
    assert (a = b) as ->.
    { assert (Hina : In a (b :: r')) by (apply (Permutation_in _ Hp); now left).
      assert (Hinb : In b (a :: r))
        by (apply (Permutation_in _ (Permutation_sym Hp)); now left).
      destruct Hina as [->|Hina]; [reflexivity|].
      destruct Hinb as [->|Hinb]; [reflexivity|].
      rewrite Forall_forall in Ha, Hb.
      elim (key_lt_irrefl a). exact (key_lt_trans _ _ _ (Ha b Hinb) (Hb a Hina)). }
    f_equal. apply IH; try assumption. exact (Permutation_cons_inv Hp).
Qed.

Lemma filter_perm {A : Type} (p : A -> bool) (l l' : list A) :
  Permutation l l' -> Permutation (filter p l) (filter p l').
Proof.
  induction 1 as [|x l l' _ IH|x y l|l l' l'' _ IH1 _ IH2]; simpl.
  - constructor.
  - destruct (p x); [now constructor|exact IH].
  - destruct (p x), (p y); try reflexivity. apply perm_swap.
  - now transitivity (filter p l').
Qed.

Lemma kv_delete_comm (k1 k2 : bytes) (db : DB) :
  kv_delete k1 (kv_delete k2 db) = kv_delete k2 (kv_delete k1 db).
Proof.
  unfold kv_delete. induction db as [|[k v] rest IH]; simpl; [reflexivity|].
  destruct (String.eqb k k2) eqn:E2, (String.eqb k k1) eqn:E1; simpl;
    rewrite ?E1, ?E2; simpl; now rewrite IH.
Qed.

Lemma kv_set_perm_delete (key val : bytes) (db : DB) :
  Permutation (kv_set key val db) ((key, val) :: kv_delete key db).
Proof. unfold kv_set. apply kv_insert_perm. Qed.

Lemma kv_set_comm (k1 v1 k2 v2 : bytes) (db : DB) :
  kv_sorted db -> k1 <> k2 ->
  kv_set k2 v2 (kv_set k1 v1 db) = kv_set k1 v1 (kv_set k2 v2 db).
Proof.
  intros Hs Hne.
  apply kv_sorted_perm_eq; try (now repeat apply kv_sorted_set).
  assert (Hside : forall a va b vb, a <> b ->
            Permutation (kv_set b vb (kv_set a va db))
                        ((b, vb) :: (a, va) :: kv_delete b (kv_delete a db))).
  { intros a va b vb Hab.
    rewrite kv_set_perm_delete. constructor.
    unfold kv_delete at 1. rewrite (filter_perm _ _ _ (kv_set_perm_delete a va db)).
    simpl. destruct (String.eqb_spec a b) as [->|_]; [contradiction|]. reflexivity. }
  rewrite (Hside k1 v1 k2 v2 Hne).
  rewrite (Hside k2 v2 k1 v1 (not_eq_sym Hne)).
  rewrite (kv_delete_comm k1 k2 db). apply perm_swap.
Qed.

Section WriteOrder.
Context {L : Libs}.

(** X20: the content of the store does not depend on the order of the
    writes: two traces with different ids stored one after the other
    leave the store in key order in the same state as stored the other
    way round.  The listing therefore follows the ids, not the time of
    writing. *)
Theorem StoreTrace_order_irrelevant (s s1 s12 : DB) (t1 t2 : trace) (id1 id2 : string) :
  kv_sorted s ->
  trace_id_of t1 = Some id1 ->
  trace_id_of t2 = Some id2 ->
  id1 <> id2 ->
  StoreTrace s t1 = (s1, None) ->
  StoreTrace s1 t2 = (s12, None) ->
  exists s2, StoreTrace s t2 = (s2, None) /\ StoreTrace s2 t1 = (s12, None).
Proof.
  intros Hs Hid1 Hid2 Hne H1 H2.
  unfold trace_id_of in Hid1, Hid2.
  destruct (map_lookup "trace_id" t1) as [[]|] eqn:Hl1; try discriminate Hid1.
  destruct (map_lookup "trace_id" t2) as [[]|] eqn:Hl2; try discriminate Hid2.
  injection Hid1 as ->. injection Hid2 as ->.
  rewrite (StoreTrace_with_id _ _ _ Hl1) in H1.
  rewrite (StoreTrace_with_id _ _ _ Hl2) in H2.
  destruct (json_Marshal t1) as [d1|] eqn:Hm1; [|discriminate H1].
  destruct (json_Marshal t2) as [d2|] eqn:Hm2; [|discriminate H2].
  destruct (txn_modify_check (trace_key id1) d1) eqn:Hc1; [discriminate H1|].
  destruct (txn_modify_check (trace_key id2) d2) eqn:Hc2; [discriminate H2|].
  injection H1 as <-. injection H2 as <-.
  exists (kv_set (trace_key id2) d2 s). split.
  - now rewrite (StoreTrace_with_id _ _ _ Hl2), Hm2, Hc2.
  - rewrite (StoreTrace_with_id _ _ _ Hl1), Hm1, Hc1. f_equal.
    apply kv_set_comm; [exact Hs|].
    intros Heq. apply trace_key_inj in Heq. now apply Hne.
Qed.

Lemma kv_get_In (key val : bytes) (db : DB) :
  kv_get key db = Some val -> In (key, val) db.
Proof.
  unfold kv_get.
  destruct (find (fun e => String.eqb (fst e) key) db) as [[k v]|] eqn:E; [|discriminate].
  intros [= <-]. apply find_some in E. destruct E as [Hin Hk].
  simpl in Hk. apply String.eqb_eq in Hk. now subst.
Qed.

Lemma Forall2_In_decodes (items : list (bytes * bytes)) (ts : list trace)
    (e : bytes * bytes) :
  Forall2 decodes items ts -> In e items -> exists t, decodes e t /\ In t ts.
Proof.
  induction 1 as [|x t r ts' Hx _ IH]; intros Hin; [destruct Hin|].
  destruct Hin as [->|Hin].
  - exists t. split; [exact Hx|now left].
  - destruct (IH Hin) as (t' & Ht & Hin'). exists t'. split; [exact Ht|now right].
Qed.

Lemma decode_first_decodes (items : list (bytes * bytes)) :
  forall (n : nat) (ts : list trace),
    decode_first n items = Ok ts -> (List.length items <= n)%nat ->
    Forall2 decodes items ts.
Proof.
  induction items as [|[k v] rest IH]; intros n ts E Hn.
  - destruct n; simpl in E; injection E as <-; constructor.
  - destruct n as [|n]; simpl in Hn; [lia|]. simpl in E.
    destruct (json_Unmarshal v) as [t0|] eqn:Hv; [|discriminate E].
    destruct (decode_first n rest) as [ts0|] eqn:E0; [|discriminate E].
    injection E as <-. constructor; [exact Hv|]. apply (IH n); [exact E0|lia].
Qed.

(** X21: the point read and the listing agree: a trace that [GetTrace]
    returns for some id is among the traces [GetTraces] returns, as soon
    as the limit covers the store. *)
Theorem GetTrace_listed_by_GetTraces (s : DB) (id : string) (t : trace)
    (limit : Z) (ts : list trace) :
  GetTrace s id = Ok t ->
  GetTraces s limit = Ok ts ->
  Z.of_nat (List.length (stored_records s)) <= limit ->
  In t ts.
Proof.
  intros Hg Hl Hlim. unfold GetTrace, db_View, txn_Get in Hg. fold (trace_key id) in Hg.
  destruct (kv_get (trace_key id) s) as [val|] eqn:Hk; [|discriminate Hg].
  apply kv_get_In in Hk.
  assert (Hin : In (trace_key id, val) (stored_records s)).
  { unfold stored_records, txn_NewIterator. apply filter_In. split; [exact Hk|].
    apply trace_key_prefix. }
  rewrite GetTraces_decode_first in Hl.
  destruct (decode_first (Z.to_nat limit) (stored_records s)) as [ts'|] eqn:E;
    [|discriminate Hl].
  injection Hl as <-.
  pose proof (decode_first_decodes _ _ _ E ltac:(lia)) as Hd.
  destruct (Forall2_In_decodes _ _ _ Hd Hin) as (t' & Ht & Hin').
  unfold decodes in Ht. simpl in Ht. rewrite Hg in Ht. injection Ht as ->.
  exact Hin'.
Qed.

End WriteOrder.

(** * The further properties on data *)

Lemma three_records_sorted : kv_sorted three_records.
Proof. unfold kv_sorted. vm_compute. repeat constructor. Qed.

Lemma StoreTrace_other_ids_untouched_witness :
  GetTrace (L := golibs) (fst (StoreTrace (L := golibs) three_records trace_t1_one)) "a" =
  GetTrace (L := golibs) three_records "a".
Proof.
  apply (StoreTrace_other_ids_untouched (L := golibs)
           three_records _ trace_t1_one "t1" "a" None);
    [reflexivity|discriminate|reflexivity].
Defined.

Lemma GetStats_corrupt_record_aborts_witness :
  GetStats (L := golibs) corrupt_store =
    Err (Errorf_w "failed to get stats" Json.SyntaxError).
Proof.
  apply (GetStats_corrupt_record_aborts (L := golibs) corrupt_store
           [hd ("", "") three_records] [trace_a] "trace:b" "{"
           [hd ("", "") (tl (tl three_records))] Json.SyntaxError).
  - reflexivity.
  - repeat constructor.
  - reflexivity.
Defined.

Lemma GetTraces_smaller_limit_prefix_witness :
  GetTraces (L := golibs) three_records 2 = Ok [trace_a; trace_b].
Proof.
  apply (GetTraces_smaller_limit_prefix (L := golibs) three_records 2 5
           [trace_a; trace_b; trace_c]); [reflexivity|lia].
Defined.

Lemma GetStats_agrees_with_GetTraces_witness :
  exists ts,
    GetTraces (L := golibs) three_records 10 = Ok ts /\
    Some (Int 3) = Some (Int (Z.of_nat (List.length ts))) /\
    Some (Int 3) = Some (Int (wrap_int64 (zsum (map counted_spans ts)))).
Proof.
  apply (GetStats_agrees_with_GetTraces (L := golibs) three_records
           [ ("storage_size", Str "0.00 MB"); ("total_spans", Int 3);
             ("total_traces", Int 3) ] 10).
  - reflexivity.
  - vm_compute. discriminate.
  - reflexivity.
Defined.

Lemma StoreTrace_keeps_key_order_witness :
  kv_sorted (fst (StoreTrace (L := golibs) three_records trace_d)) /\
  kv_sorted (stored_records (fst (StoreTrace (L := golibs) three_records trace_d))) /\
  NoDup (map fst (stored_records (fst (StoreTrace (L := golibs) three_records trace_d)))).
Proof.
  apply (StoreTrace_keeps_key_order (L := golibs) three_records _ trace_d None).
  - exact three_records_sorted.
  - reflexivity.
Defined.

Lemma reads_ignore_foreign_keys_witness :
  GetTraces (L := golibs) (kv_set "meta:version" "1" three_records) 10 =
    GetTraces (L := golibs) three_records 10 /\
  GetStats (L := golibs) (kv_set "meta:version" "1" three_records) =
    GetStats (L := golibs) three_records.
Proof.
  apply (reads_ignore_foreign_keys (L := golibs) three_records "meta:version" "1" 10).
  reflexivity.
Defined.

Lemma GetStats_small_store_prints_zero_witness :
  map_lookup "storage_size"
    [ ("storage_size", Str "0.00 MB"); ("total_spans", Int 3); ("total_traces", Int 3) ] =
  Some (Str "0.00 MB").
Proof.
  apply (GetStats_small_store_prints_zero (L := golibs) three_records).
  - reflexivity.
  - vm_compute. discriminate.
Defined.

Lemma format_storage_size_whole_witness :
  format_storage_size (3 * (1024 * 1024)) = (decimal 3 ++ ".00 MB")%string.
Proof. apply (format_storage_size_whole 3). lia. Defined.

Lemma handleGetTrace_hides_decoding_error_witness :
  handleGetTrace (L := golibs) corrupt_store "b" =
    {| StatusCode := StatusNotFound; Body := error_body "trace not found" |} /\
  handleGetTrace (L := golibs) corrupt_store "b" =
    handleGetTrace (L := golibs) NewBadgerStore "b".
Proof.
  apply (handleGetTrace_hides_decoding_error (L := golibs)
           corrupt_store "b" "{" Json.SyntaxError); reflexivity.
Defined.

Lemma handleStoreTrace_writes_only_on_200_witness :
  let out := handleStoreTrace (L := golibs) (G := gogin) NewBadgerStore (body_of trace_a) in
  (StatusCode (snd out) = StatusOK /\
   exists t id data,
     ShouldBindJSON (Gin := gogin) (body_of trace_a) = Ok t /\
     trace_id_of t = Some id /\
     json_Marshal (Libs := golibs) t = Ok data /\
     fst out = kv_set (trace_key id) data NewBadgerStore) \/
  ((StatusCode (snd out) = StatusBadRequest \/
    StatusCode (snd out) = StatusInternalServerError) /\
   fst out = NewBadgerStore).
Proof.
  intros out.
  apply (handleStoreTrace_writes_only_on_200 (L := golibs) (G := gogin)
           NewBadgerStore (fst out) (body_of trace_a) (snd out)).
  reflexivity.
Defined.

Lemma handleStoreTrace_missing_id_is_500_witness :
  handleStoreTrace (L := golibs) (G := gogin) three_records "{}" =
    (three_records,
     {| StatusCode := StatusInternalServerError;
        Body := error_body "trace_id is required" |}).
Proof.
  apply (handleStoreTrace_missing_id_is_500 (L := golibs) (G := gogin)
           three_records "{}" []); reflexivity.
Defined.

Lemma handleGetTraces_first_100_witness :
  handleGetTraces (L := golibs) three_records =
    {| StatusCode := StatusOK;
       Body := MapSlice (firstn 100 [trace_a; trace_b; trace_c]) |}.
Proof.
  apply (handleGetTraces_first_100 (L := golibs) three_records).
  repeat constructor.
Defined.

Lemma handleStoreTrace_then_handleGetTrace_witness :
  handleGetTrace (L := golibs)
    (fst (handleStoreTrace (L := golibs) (G := gogin) NewBadgerStore (body_of trace_b)))
    "b" =
  {| StatusCode := StatusOK; Body := Map trace_b |}.
Proof.
  apply (handleStoreTrace_then_handleGetTrace (L := golibs) (G := gogin)
           NewBadgerStore _ (body_of trace_b)
           (snd (handleStoreTrace (L := golibs) (G := gogin)
                   NewBadgerStore (body_of trace_b)))
           trace_b "b"); try reflexivity.
  eexists. split; reflexivity.
Defined.

Lemma many_store_records :
  exists gts rest,
    stored_records many_store =
      firstn 100 (stored_records many_store) ++ ("trace:z", "{") :: rest /\
    Forall2 (decodes (L := golibs)) (firstn 100 (stored_records many_store)) gts.
Proof.
  destruct (decode_first (L := golibs) 100 (firstn 100 (stored_records many_store)))
    as [gts|] eqn:E; [|vm_compute in E; discriminate E].
  exists gts, []. split; [vm_compute; reflexivity|].
  apply (decode_first_decodes (L := golibs) _ 100 gts E).
  rewrite length_firstn. lia.
Qed.

Lemma list_ok_while_stats_fail_witness :
  StatusCode (handleGetTraces (L := golibs) many_store) = StatusOK /\
  StatusCode (handleGetStats (L := golibs) many_store) = StatusInternalServerError.
Proof.
  destruct many_store_records as (gts & rest & Hs & Hg).
  destruct (list_ok_while_stats_fail (L := golibs) many_store
              (firstn 100 (stored_records many_store)) gts "trace:z" "{" rest
              Json.SyntaxError Hs Hg eq_refl) as [H1 H2].
  - vm_compute. apply le_n.
  - rewrite H1, H2. split; reflexivity.
Defined.

Lemma StoreTrace_GetTrace_normal_form_witness :
  GetTrace (L := golibs) (fst (StoreTrace (L := golibs) NewBadgerStore test_trace))
    "test-trace-1" = Ok (normalize_trace test_trace) /\
  trace_id_of (normalize_trace test_trace) = Some "test-trace-1" /\
  counted_spans (normalize_trace test_trace) = span_count test_trace.
Proof.
  apply (StoreTrace_GetTrace_normal_form NewBadgerStore _ test_trace "test-trace-1");
    reflexivity.
Defined.

Lemma StoreTrace_refuses_nonfinite_witness :
  exists e, StoreTrace (L := golibs) three_records trace_nan =
            (three_records, Some (Errorf_w "failed to marshal trace" e)).
Proof.
  apply (StoreTrace_refuses_nonfinite three_records trace_nan "n"); reflexivity.
Defined.

Lemma normal_form_round_trips_witness :
  Json.json_native (normalize_trace trace_d) = true /\
  round_trips (L := golibs) (normalize_trace trace_d).
Proof. apply (normal_form_round_trips trace_d). vm_compute. reflexivity. Defined.

Lemma StoreTrace_order_irrelevant_witness :
  exists s2,
    StoreTrace (L := golibs) NewBadgerStore trace_d = (s2, None) /\
    StoreTrace (L := golibs) s2 trace_a =
      (fst (StoreTrace (L := golibs)
              (fst (StoreTrace (L := golibs) NewBadgerStore trace_a)) trace_d), None).
Proof.
  apply (StoreTrace_order_irrelevant (L := golibs) NewBadgerStore
           (fst (StoreTrace (L := golibs) NewBadgerStore trace_a)) _
           trace_a trace_d "a" "d");
    try reflexivity; [constructor|discriminate].
Defined.

Lemma GetTrace_listed_by_GetTraces_witness :
  In trace_b [trace_a; trace_b; trace_c].
Proof.
  apply (GetTrace_listed_by_GetTraces (L := golibs) three_records "b" trace_b 10).
  - reflexivity.
  - reflexivity.
  - vm_compute. discriminate.
Defined.
